(** * kong: resolving flag values from external sources (resolver.go)

    A shallow embedding of [resolver.go] and of the parts of the Go
    runtime and standard library it calls ([strings.Replace],
    [os.Getenv], [encoding/json]'s [Decoder.Decode] into a
    [map[string]interface{}]), followed by the properties of the three
    built-in resolvers and of the [ResolverFunc] adapter. *)

From Stdlib Require Import ZArith SpecFloat Ascii String.
From stdpp Require Import gmap strings list fin_maps.

#[local] Set Warnings "-register-all,-abstract-large-number".
#[local] Open Scope string_scope.

(** ** The fragment of Go that resolver.go relies on *)

Module Go.

(** Dynamic values held by an [interface{}]: the nil interface, a
    [string] (the defaults and environment resolvers), and what
    [encoding/json] stores when it decodes into an [interface{}]:
    [bool], [float64], [string], [[]interface{}],
    [map[string]interface{}] and nil for JSON null. *)
Inductive value : Type :=
| nil
| VString (s : string)
| VBool (b : bool)
| VFloat64 (f : spec_float)
| VSlice (l : list value)
| VMap (m : gmap string value).

(** A variable of type [map[string]interface{}]: the nil map or a
    table.  Reading a key of the nil map finds nothing. *)
Inductive gomap : Type :=
| nil_map
| table (m : gmap string value).

(** [raw, ok := values[name]] *)
Definition index (values : gomap) (name : string) : value * bool :=
  match values with
  | nil_map => (nil, false)
  | table m =>
      match m !! name with
      | Some raw => (raw, true)
      | None => (nil, false)
      end
  end.

(** The error values that can reach resolver.go: they all come from
    the JSON decoder.  Message texts and byte offsets are left out. *)
Inductive error_value : Type :=
| EOF
| ErrUnexpectedEOF
| SyntaxError
| UnmarshalTypeError (Value : string).

(** An [error] is an interface: nil is [None]. *)
Definition error : Type := option error_value.

(** What a Go computation can observe and change: the process
    environment and the variables that outlive the call that declared
    them (here: the [values] map captured by the JSON resolver). *)
Record World : Type := mkWorld {
  environ : gmap string string;
  heap : list gomap
}.

Inductive panic : Type :=
| nil_dereference        (* invalid memory address or nil pointer dereference *)
| unallocated (l : nat). (* no Go program reaches this: a variable read before it is declared *)

Inductive outcome (A : Type) : Type :=
| Returned (a : A) (w : World)
| Panicked (p : panic).
Arguments Returned {A} a w.
Arguments Panicked {A} p.

(** A computation takes the world and returns with a new world, or panics. *)
Definition M (A : Type) : Type := World -> outcome A.

Definition ret {A} (a : A) : M A := fun w => Returned a w.

Definition bind {A B} (m : M A) (k : A -> M B) : M B :=
  fun w =>
    match m w with
    | Returned a w' => k a w'
    | Panicked p => Panicked p
    end.

Definition throw {A} (p : panic) : M A := fun _ => Panicked p.

(** [*p] for a pointer that may be nil. *)
Definition deref {A} (p : option A) : M A :=
  match p with
  | Some a => ret a
  | None => throw nil_dereference
  end.

(** Declaring a variable that a closure captures. *)
Definition declare (init : gomap) : M nat :=
  fun w => Returned (length (heap w))
                    {| environ := environ w; heap := heap w ++ [init] |}.

Definition load (l : nat) : M gomap :=
  fun w =>
    match heap w !! l with
    | Some m => Returned m w
    | None => Panicked (unallocated l)
    end.

Definition store (l : nat) (m : gomap) : M unit :=
  fun w =>
    match heap w !! l with
    | Some _ => Returned tt {| environ := environ w; heap := <[l := m]> (heap w) |}
    | None => Panicked (unallocated l)
    end.

(** The value a computation returned, if it returned. *)
Definition returned {A} (o : outcome A) : option A :=
  match o with
  | Returned a _ => Some a
  | Panicked _ => None
  end.

(** The world a computation left behind, if it returned. *)
Definition world_after {A} (o : outcome A) : option World :=
  match o with
  | Returned _ w => Some w
  | Panicked _ => None
  end.

End Go.

Import Go.

#[global] Instance M_ret : MRet Go.M := @Go.ret.
#[global] Instance M_bind : MBind Go.M := fun A B k m => Go.bind m k.

(** ** unicode/utf8: how many bytes the encoding at the head of a string takes *)

Module utf8.

Definition between (lo hi : nat) (c : ascii) : bool :=
  (lo <=? nat_of_ascii c)%nat && (nat_of_ascii c <=? hi)%nat.

(** A continuation byte, 0x80 to 0xBF. *)
Definition cont (c : ascii) : bool := between 128 191 c.

(** The size and the range accepted for the second byte, by first byte
    (the table [first] with [acceptRanges]); [None] for a byte that
    starts no encoding. *)
Definition lead (c : ascii) : option (nat * nat * nat) :=
  let n := nat_of_ascii c in
  if (n <? 128)%nat then None
  else if (n <? 194)%nat then None
  else if (n <? 224)%nat then Some (2, 128, 191)%nat
  else if (n =? 224)%nat then Some (3, 160, 191)%nat
  else if (n =? 237)%nat then Some (3, 128, 159)%nat
  else if (n <? 240)%nat then Some (3, 128, 191)%nat
  else if (n =? 240)%nat then Some (4, 144, 191)%nat
  else if (n <? 244)%nat then Some (4, 128, 191)%nat
  else if (n =? 244)%nat then Some (4, 128, 143)%nat
  else None.

(** [_, size := utf8.DecodeRuneInString(s)] together with whether the
    rune is a well-formed one: [(false, 1)] is [(RuneError, 1)], and
    the empty string gives [(false, 0)]. *)
Definition DecodeRuneInString (s : string) : bool * nat :=
  match s with
  | "" => (false, 0%nat)
  | String c0 s1 =>
      if (nat_of_ascii c0 <? 128)%nat then (true, 1%nat)
      else
        match lead c0, s1 with
        | Some (2%nat, lo, hi), String c1 _ =>
            if between lo hi c1 then (true, 2%nat) else (false, 1%nat)
        | Some (3%nat, lo, hi), String c1 (String c2 _) =>
            if between lo hi c1 && cont c2 then (true, 3%nat) else (false, 1%nat)
        | Some (4%nat, lo, hi), String c1 (String c2 (String c3 _)) =>
            if between lo hi c1 && cont c2 && cont c3 then (true, 4%nat)
            else (false, 1%nat)
        | _, _ => (false, 1%nat)
        end
  end.

(** [utf8.RuneCountInString]: every ill-formed byte counts as one rune. *)
Fixpoint rune_count (skip : nat) (s : string) : nat :=
  match s with
  | "" => 0%nat
  | String _ s' =>
      match skip with
      | S k => rune_count k s'
      | O => S (rune_count (Nat.pred (snd (DecodeRuneInString s))) s')
      end
  end.

Definition RuneCountInString (s : string) : nat := rune_count 0 s.

End utf8.

(** ** package strings *)

Module strings.

Fixpoint take (n : nat) (s : string) : string :=
  match n, s with
  | S k, String c s' => String c (take k s')
  | _, _ => ""
  end.

Fixpoint drop (n : nat) (s : string) : string :=
  match n, s with
  | S k, String _ s' => drop k s'
  | _, _ => s
  end.

(** [strings.HasPrefix(s, prefix)] *)
Fixpoint HasPrefix (s prefix : string) : bool :=
  match prefix, s with
  | "", _ => true
  | String p prefix', String c s' => Ascii.eqb c p && HasPrefix s' prefix'
  | String _ _, "" => false
  end.

(** [strings.Index(s, substr)]: the first position where [substr]
    occurs; Go's -1 is [None]. *)
Fixpoint Index (s substr : string) : option nat :=
  if HasPrefix s substr then Some 0%nat
  else
    match s with
    | "" => None
    | String _ s' => S <$> Index s' substr
    end.

Fixpoint count_byte (s : string) (b : ascii) : nat :=
  match s with
  | "" => 0%nat
  | String c s' => ((if Ascii.eqb c b then 1 else 0) + count_byte s' b)%nat
  end.

(** The loop of [strings.Count] for a [substr] of two bytes or more:
    each round cuts [s] after the occurrence found, so [length s]
    rounds are always enough. *)
Fixpoint count_from (rounds : nat) (s substr : string) : nat :=
  match rounds with
  | O => 0%nat
  | S rounds' =>
      match Index s substr with
      | None => 0%nat
      | Some i => S (count_from rounds' (drop (i + String.length substr) s) substr)
      end
  end.

(** [strings.Count(s, substr)] *)
Definition Count (s substr : string) : nat :=
  match substr with
  | "" => (utf8.RuneCountInString s + 1)%nat
  | String b "" => count_byte s b
  | _ => count_from (String.length s) s substr
  end.

(** The loop [for i := 0; i < n; i++] of [strings.Replace], where
    [rest] is [s[start:]] and [first] tells whether [i] is 0. *)
Fixpoint replace_from (n : nat) (first : bool) (rest old new : string) : string :=
  match n with
  | O => rest
  | S n' =>
      let j :=
        match old with
        | "" => Some (if first then 0%nat else snd (utf8.DecodeRuneInString rest))
        | _ => Index rest old
        end in
      match j with
      | Some j =>
          take j rest +:+ new +:+
          replace_from n' false (drop (j + String.length old) rest) old new
      | None => rest (* not reached: [n] is at most [Count rest old] *)
      end
  end.

(** [strings.Replace(s, old, new, n)]; a negative [n] puts no limit on
    the number of replacements. *)
Definition Replace (s old new : string) (n : Z) : string :=
  if String.eqb old new || (n =? 0)%Z then s
  else
    let m := Count s old in
    if (m =? 0)%nat then s
    else
      let n := if (n <? 0)%Z || (Z.of_nat m <? n)%Z then m else Z.to_nat n in
      replace_from n true s old new.

End strings.

(** ** package os *)

Module os.

(** [os.Getenv(key)]: the value of the variable, the empty string when
    it is not set (and for the empty key). *)
Definition Getenv (key : string) : Go.M string :=
  fun w =>
    Returned (if String.eqb key "" then ""
              else default "" (environ w !! key)) w.

End os.

(** ** package strconv: decimal literals to float64 *)

Module strconv.

Definition digit (c : ascii) : option Z :=
  let n := nat_of_ascii c in
  if (48 <=? n)%nat && (n <=? 57)%nat then Some (Z.of_nat n - 48)%Z else None.

(** Reads the digits at the head of [s] after the digits already read
    ([acc], [count] of them). *)
Fixpoint digits (acc : Z) (count : nat) (s : string) : Z * nat * string :=
  match s with
  | String c s' =>
      match digit c with
      | Some d => digits (10 * acc + d)%Z (S count) s'
      | None => (acc, count, s)
      end
  | "" => (acc, count, s)
  end.

Definition sign (s : string) : bool * string :=
  match s with
  | String "-" s' => (true, s')
  | String "+" s' => (false, s')
  | _ => (false, s)
  end.

(** The nearest float64, ties to even, of [(-1)^neg * m * 10^e]. *)
Definition round_decimal (neg : bool) (m e : Z) : spec_float :=
  match m with
  | Z0 => S754_zero neg
  | _ =>
      if (0 <=? e)%Z
      then binary_normalize 53 1024 (cond_Zopp neg (m * 10 ^ e)) 0 neg
      else
        let '(q, e', l) := SFdiv_core_binary 53 1024 m 0 (10 ^ (- e)) 0 in
        binary_round_aux 53 1024 neg q e' l
  end.

(** The digits of an exponent, as [readFloat] reads them: once the
    value has reached 10000 the digits that follow are skipped
    ([if e < 10000 { e = e*10 + digit }]). *)
Fixpoint exponent (e : Z) (s : string) : Z :=
  match s with
  | String c s' =>
      match digit c with
      | Some d => exponent (if (e <? 10000)%Z then 10 * e + d else e)%Z s'
      | None => e
      end
  | "" => e
  end.

(** [strconv.ParseFloat(s, 64)] on the decimal literals the JSON
    scanner lets through: an optional sign, digits, an optional
    fraction and an optional exponent.  The error is [ErrRange], which
    is all the caller looks at: it is returned when the value read
    rounds to an infinity. *)
Definition ParseFloat (s : string) : spec_float * bool :=
  let '(neg, s) := sign s in
  let '(m, _, s) := digits 0 0 s in
  let '(m, frac, s) :=
    match s with
    | String "." s' => digits m 0 s'
    | _ => (m, 0%nat, s)
    end in
  let e :=
    match s with
    | String c s' =>
        if Ascii.eqb c "e" || Ascii.eqb c "E"
        then let '(eneg, s'') := sign s' in
             cond_Zopp eneg (exponent 0 s'')
        else 0%Z
    | "" => 0%Z
    end in
  let f := round_decimal neg m (e - Z.of_nat frac) in
  match f with
  | S754_infinity _ => (f, false)
  | _ => (f, true)
  end.

End strconv.

(** ** package encoding/json: decoding one value into a map variable *)

Module json.

(** What reading a piece of the input can come to. *)
Inductive scan (A : Type) : Type :=
| Ok (a : A) (rest : string)  (* read, and what follows it *)
| Invalid                     (* a byte that cannot continue the value: a SyntaxError *)
| Short                       (* the input ended inside the value *)
| Fuel.                       (* the recursion budget ran out; see [fuel_for] *)
Arguments Ok {A} a rest.
Arguments Invalid {A}.
Arguments Short {A}.
Arguments Fuel {A}.

Definition and_then {A B} (m : scan A) (k : A -> string -> scan B) : scan B :=
  match m with
  | Ok a rest => k a rest
  | Invalid => Invalid
  | Short => Short
  | Fuel => Fuel
  end.

(** Changes what was read and leaves the rest of the input alone. *)
Definition with_result {A B} (f : A -> B) (m : scan A) : scan B :=
  and_then m (fun a rest => Ok (f a) rest).

Definition maxNestingDepth : nat := 10000.

Definition DQ : ascii := "034"%char.   (* the double quote *)
Definition TAB : ascii := "009"%char.
Definition LF : ascii := "010"%char.
Definition CR : ascii := "013"%char.

Definition isSpace (c : ascii) : bool :=
  Ascii.eqb c " " || Ascii.eqb c TAB || Ascii.eqb c CR || Ascii.eqb c LF.

Fixpoint skipSpace (s : string) : string :=
  match s with
  | String c s' => if isSpace c then skipSpace s' else s
  | "" => s
  end.

(** [nonSpace(buf)]: is there a byte that is not white space? *)
Definition nonSpace (s : string) : bool :=
  match skipSpace s with
  | "" => false
  | _ => true
  end.

(** The rest of a literal ([rue], [alse], [ull]) after its first byte. *)
Fixpoint literal (expected s : string) : scan unit :=
  match expected with
  | "" => Ok tt s
  | String e expected' =>
      match s with
      | "" => Short
      | String c s' => if Ascii.eqb c e then literal expected' s' else Invalid
      end
  end.

(** *** Numbers: the bytes of the literal *)

Definition isDigit (c : ascii) : bool :=
  match strconv.digit c with Some _ => true | None => false end.

(** The digits at the head of [s], and what follows them. *)
Fixpoint digits (s : string) : string * string :=
  match s with
  | String c s' =>
      if isDigit c then let '(ds, rest) := digits s' in (String c ds, rest)
      else ("", s)
  | "" => ("", s)
  end.

(** One digit at least. *)
Definition digits1 (s : string) : scan string :=
  match s with
  | "" => Short
  | String c _ =>
      if isDigit c then let '(ds, rest) := digits s in Ok ds rest else Invalid
  end.

(** states [stateE], [stateESign], [stateE0] *)
Definition exponent (s : string) : scan string :=
  match s with
  | String c s' =>
      if Ascii.eqb c "e" || Ascii.eqb c "E" then
        match s' with
        | String sg s'' =>
            if Ascii.eqb sg "+" || Ascii.eqb sg "-"
            then with_result (fun ds => String c (String sg ds)) (digits1 s'')
            else with_result (String c) (digits1 s')
        | "" => Short
        end
      else Ok "" s
  | "" => Ok "" s
  end.

(** states [stateDot], [stateDot0], then the exponent *)
Definition fraction (s : string) : scan string :=
  match s with
  | String c s' =>
      if Ascii.eqb c "."
      then and_then (digits1 s') (fun ds rest =>
             with_result (fun e => String c ds +:+ e) (exponent rest))
      else exponent s
  | "" => Ok "" s
  end.

(** states [state0] and [state1]: the digits before the fraction *)
Definition unsigned (s : string) : scan string :=
  match s with
  | String c s' =>
      if Ascii.eqb c "0" then with_result (String c) (fraction s')
      else if isDigit c then
        let '(ds, rest) := digits s' in
        with_result (fun f => String c ds +:+ f) (fraction rest)
      else Invalid
  | "" => Short
  end.

(** A number: an optional minus sign ([stateNeg]), then the digits. *)
Definition number (s : string) : scan string :=
  match s with
  | String c s' =>
      if Ascii.eqb c "-" then with_result (String c) (unsigned s')
      else unsigned s
  | "" => Short
  end.

(** [d.convertNumber(s)]: the float64, or nil and an
    UnmarshalTypeError when the literal is out of range. *)
Definition convertNumber (s : string) : value * error :=
  match strconv.ParseFloat s with
  | (f, true) => (VFloat64 f, None)
  | (_, false) => (nil, Some (UnmarshalTypeError ("number " +:+ s)))
  end.

(** *** Strings: the text between the quotes, unquoted *)

Definition hex (c : ascii) : option N :=
  let n := N_of_ascii c in
  if (48 <=? n)%N && (n <=? 57)%N then Some (n - 48)%N
  else if (97 <=? n)%N && (n <=? 102)%N then Some (n - 87)%N
  else if (65 <=? n)%N && (n <=? 70)%N then Some (n - 55)%N
  else None.

(** The rune that four hexadecimal digits write. *)
Definition hex4 (a b c d : ascii) : option N :=
  match hex a, hex b, hex c, hex d with
  | Some a, Some b, Some c, Some d => Some (((a * 16 + b) * 16 + c) * 16 + d)%N
  | _, _, _, _ => None
  end.

(** What the scanner says when fewer than four bytes follow a
    backslash and u: a byte that is no hexadecimal digit is an error,
    otherwise the input is too short. *)
Fixpoint hex_cut_short {A} (s : string) : scan A :=
  match s with
  | "" => Short
  | String c s' => match hex c with Some _ => hex_cut_short s' | None => Invalid end
  end.

(** [utf16.IsSurrogate(r)] *)
Definition IsSurrogate (r : N) : bool := (55296 <=? r)%N && (r <? 57344)%N.

(** [utf16.DecodeRune(r1, r2)]; [None] is the replacement
    character U+FFFD of an ill-formed pair. *)
Definition DecodeRune (r1 r2 : N) : option N :=
  if (55296 <=? r1)%N && (r1 <? 56320)%N && (56320 <=? r2)%N && (r2 <? 57344)%N
  then Some (N.lor (N.shiftl (r1 - 55296) 10) (r2 - 56320) + 65536)%N
  else None.

Definition RuneError : string :=
  String "239"%char (String "191"%char (String "189"%char "")).

(** [utf8.EncodeRune]: the bytes that write rune [r]. *)
Definition EncodeRune (r : N) : string :=
  let byte (n : N) := ascii_of_N n in
  let tail (n : N) := byte (N.lor 128 (N.land n 63)) in
  if (r <=? 127)%N then String (byte r) ""
  else if (r <=? 2047)%N then
    String (byte (N.lor 192 (N.shiftr r 6))) (String (tail r) "")
  else if (1114111 <? r)%N || IsSurrogate r then RuneError
  else if (r <=? 65535)%N then
    String (byte (N.lor 224 (N.shiftr r 12)))
      (String (tail (N.shiftr r 6)) (String (tail r) ""))
  else
    String (byte (N.lor 240 (N.shiftr r 18)))
      (String (tail (N.shiftr r 12))
         (String (tail (N.shiftr r 6)) (String (tail r) ""))).

(** The byte that a one-letter escape stands for. *)
Definition escape (c : ascii) : option ascii :=
  if Ascii.eqb c DQ || Ascii.eqb c "\" || Ascii.eqb c "/" then Some c
  else if Ascii.eqb c "b" then Some "008"%char
  else if Ascii.eqb c "f" then Some "012"%char
  else if Ascii.eqb c "n" then Some LF
  else if Ascii.eqb c "r" then Some CR
  else if Ascii.eqb c "t" then Some TAB
  else None.

(** A string from the byte after its opening quote: the unquoted text
    ([unquote]) and what follows the closing quote.  The scanner
    refuses control bytes and unknown escapes; [unquote] turns
    ill-formed UTF-8 and unpaired surrogates into U+FFFD.  The next
    [skip] bytes are the remaining bytes of a well-formed encoding and
    are copied. *)
Fixpoint stringBody (skip : nat) (s : string) : scan string :=
  match s with
  | "" => Short
  | String c s' =>
      match skip with
      | S k => with_result (String c) (stringBody k s')
      | O =>
          if Ascii.eqb c DQ then Ok "" s'
          else if Ascii.eqb c "\" then
            match s' with
            | "" => Short
            | String e s'' =>
                if Ascii.eqb e "u" then
                  match s'' with
                  | String h1 (String h2 (String h3 (String h4 rest))) =>
                      match hex4 h1 h2 h3 h4 with
                      | None => Invalid
                      | Some rr =>
                          if IsSurrogate rr then
                            match rest with
                            | String b (String u (String l1 (String l2 (String l3
                                (String l4 rest'))))) =>
                                match (if Ascii.eqb b "\" && Ascii.eqb u "u"
                                       then hex4 l1 l2 l3 l4 else None) with
                                | Some rr1 =>
                                    match DecodeRune rr rr1 with
                                    | Some dec =>
                                        with_result (String.app (EncodeRune dec))
                                                    (stringBody 0 rest')
                                    | None =>
                                        with_result (String.app RuneError)
                                                    (stringBody 0 rest)
                                    end
                                | None =>
                                    with_result (String.app RuneError) (stringBody 0 rest)
                                end
                            | _ => with_result (String.app RuneError) (stringBody 0 rest)
                            end
                          else with_result (String.app (EncodeRune rr)) (stringBody 0 rest)
                      end
                  | _ => hex_cut_short s''
                  end
                else
                  match escape e with
                  | Some b => with_result (String b) (stringBody 0 s'')
                  | None => Invalid
                  end
            end
          else if (nat_of_ascii c <? 32)%nat then Invalid
          else if (nat_of_ascii c <? 128)%nat then
            with_result (String c) (stringBody 0 s')
          else
            match utf8.DecodeRuneInString s with
            | (true, size) => with_result (String c) (stringBody (Nat.pred size) s')
            | (false, _) => with_result (String.app RuneError) (stringBody 0 s')
            end
      end
  end.

(** *** Values *)

(** [d.saveError(err)]: the first error is the one kept. *)
Definition saveError (saved err : error) : error :=
  match saved with
  | Some _ => saved
  | None => err
  end.

(** Budget for the recursion below on an input of this length: every
    call passes on one unit less, and between two calls at most one of
    them reads no byte. *)
Definition fuel_for (s : string) : nat := 2 * String.length s + 1.

(** [d.valueInterface], [d.arrayInterface] and [d.objectInterface]
    over the bytes the scanner accepts: the value decoded into an
    [interface{}] and the first conversion error saved on the way.
    [depth] counts the arrays and objects that are open. *)
Fixpoint valueInterface (fuel depth : nat) (s : string) {struct fuel}
  : scan (value * error) :=
  match fuel with
  | O => Fuel
  | S fuel =>
      match skipSpace s with
      | "" => Short
      | String c s' =>
          if Ascii.eqb c "{" then
            if (depth <? maxNestingDepth)%nat then
              match skipSpace s' with
              | "" => Short
              | String c' s'' =>
                  if Ascii.eqb c' "}" then Ok (VMap ∅, None) s''
                  else
                    with_result (fun '(m, saved) => (VMap m, saved))
                                (members fuel (S depth) ∅ None s')
              end
            else Invalid
          else if Ascii.eqb c "[" then
            if (depth <? maxNestingDepth)%nat then
              match skipSpace s' with
              | "" => Short
              | String c' s'' =>
                  if Ascii.eqb c' "]" then Ok (VSlice [], None) s''
                  else
                    with_result (fun '(l, saved) => (VSlice l, saved))
                                (elements fuel (S depth) [] None s')
              end
            else Invalid
          else if Ascii.eqb c DQ then
            with_result (fun str => (VString str, None)) (stringBody 0 s')
          else if Ascii.eqb c "t" then
            with_result (fun _ => (VBool true, None)) (literal "rue" s')
          else if Ascii.eqb c "f" then
            with_result (fun _ => (VBool false, None)) (literal "alse" s')
          else if Ascii.eqb c "n" then
            with_result (fun _ => (nil, None)) (literal "ull" s')
          else if Ascii.eqb c "-" || isDigit c then
            with_result convertNumber (number (String c s'))
          else Invalid
      end
  end

(** The elements of an array from where one must start, after the
    ones in [acc]. *)
with elements (fuel depth : nat) (acc : list value) (saved : error) (s : string)
  {struct fuel} : scan (list value * error) :=
  match fuel with
  | O => Fuel
  | S fuel =>
      and_then (valueInterface fuel depth s) (fun '(v, err) rest =>
        match skipSpace rest with
        | "" => Short
        | String c rest' =>
            if Ascii.eqb c "," then
              elements fuel depth (acc ++ [v])%list (saveError saved err) rest'
            else if Ascii.eqb c "]" then
              Ok ((acc ++ [v])%list, saveError saved err) rest'
            else Invalid
        end)
  end

(** The members of an object from where a key must start, put into [m]. *)
with members (fuel depth : nat) (m : gmap string value) (saved : error) (s : string)
  {struct fuel} : scan (gmap string value * error) :=
  match fuel with
  | O => Fuel
  | S fuel =>
      match skipSpace s with
      | "" => Short
      | String q s' =>
          if Ascii.eqb q DQ then
            and_then (stringBody 0 s') (fun key rest =>
              match skipSpace rest with
              | "" => Short
              | String c rest' =>
                  if Ascii.eqb c ":" then
                    and_then (valueInterface fuel depth rest') (fun '(v, err) rest'' =>
                      match skipSpace rest'' with
                      | "" => Short
                      | String c' rest''' =>
                          if Ascii.eqb c' "," then
                            members fuel depth (<[key := v]> m) (saveError saved err) rest'''
                          else if Ascii.eqb c' "}" then
                            Ok (<[key := v]> m, saveError saved err) rest'''
                          else Invalid
                      end)
                  else Invalid
              end)
          else Invalid
      end
  end.

(** The error [Decode] returns when the value cannot be read. *)
Definition read_error {A} (r : scan A) : error :=
  match r with
  | Ok _ _ => None
  | Short => Some ErrUnexpectedEOF
  | Invalid | Fuel => Some SyntaxError
  end.

(** [d.unmarshal(&values)] after [dec.readValue()]: what the variable
    holds afterwards and the error returned, for a variable that holds
    [values] before.  Only the first value of the input is read.  An
    object is decoded into the map (a fresh one if the variable holds
    the nil map), null makes the variable nil, and every other value
    is skipped with an UnmarshalTypeError. *)
Definition unmarshal (buf : string) (values : gomap) : gomap * error :=
  match skipSpace buf with
  | "" => (values, Some EOF)
  | String c s' =>
      if Ascii.eqb c "{" then
        let m0 := match values with table m => m | nil_map => ∅ end in
        match skipSpace s' with
        | "" => (values, Some ErrUnexpectedEOF)
        | String c' _ =>
            if Ascii.eqb c' "}" then (table m0, None)
            else
              match members (fuel_for buf) 1 m0 None s' with
              | Ok (m, saved) _ => (table m, saved)
              | r => (values, read_error r)
              end
        end
      else
        match valueInterface (fuel_for buf) 0 buf with
        | Ok _ _ =>
            if Ascii.eqb c "n" then (nil_map, None)
            else
              (values,
               Some (UnmarshalTypeError
                       (if Ascii.eqb c "[" then "array"
                        else if Ascii.eqb c DQ then "string"
                        else if Ascii.eqb c "t" || Ascii.eqb c "f" then "bool"
                        else "number")))
        | r => (values, read_error r)
        end
  end.

(** A reader is what it has left to deliver before it reports the end
    of the input. *)
Definition Reader : Type := string.

(** [json.NewDecoder(r).Decode(&values)], where [values] is the
    variable at [l]. *)
Definition Decode (r : Reader) (l : nat) : Go.M error :=
  values ← load l;
  let '(values', err) := unmarshal r values in
  _ ← store l values';
  mret err.

End json.

(** ** resolver.go *)

Module kong.
Section Resolver.

(** The types that resolver.go receives from the rest of the package
    and passes on without looking inside: what [*Application],
    [*Context] and [*Path] point to (nil included), and the fields of
    a flag and of its tag other than the three that are read here. *)
Variables Application Context Path : Type.
Variables FlagFields TagFields : Type.

(** Modelled from the spec: the declaration of the tag of a flag is not
    in resolver.go.  [Default] is the literal fallback (empty: none) and
    [Env] the name of the environment variable to consult (empty: no
    binding); they are the two fields read here. *)
Record Tag_struct : Type := mkTag {
  Default : string;
  Env : string;
  Tag_others : TagFields
}.

(** Modelled from the spec: the declaration of [Flag] is not in
    resolver.go.  [Name] is the canonical name of the flag, its words
    separated by hyphens. *)
Record Flag : Type := mkFlag {
  Name : string;
  Tag : Tag_struct;
  Flag_others : FlagFields
}.

(** [func(context *Context, parent *Path, flag *Flag) (interface{}, error)] *)
Definition func : Type :=
  Context -> Path -> option Flag -> Go.M (value * error).

(** [type Resolver interface]: the two methods of the value held. *)
Record Resolver_methods : Type := mkResolver {
  Validate : Application -> Go.M error;
  Resolve : Context -> Path -> option Flag -> Go.M (value * error)
}.

(** A value of the interface type [Resolver]; nil is [None]. *)
Definition Resolver : Type := option Resolver_methods.

(** [type ResolverFunc func(...)], a function value or nil. *)
Definition ResolverFunc : Type := option func.

(** [func (r ResolverFunc) Resolve(context, parent, flag)]: calling
    the nil function panics. *)
Definition ResolverFunc_Resolve (r : ResolverFunc)
  (context : Context) (parent : Path) (flag : option Flag) : Go.M (value * error) :=
  match r with
  | Some fn => fn context parent flag
  | None => throw nil_dereference
  end.

(** [func (r ResolverFunc) Validate(app *Application) error { return nil }] *)
Definition ResolverFunc_Validate (r : ResolverFunc) (app : Application) : Go.M error :=
  mret None.

(** [var _ Resolver = ResolverFunc(nil)]: a [ResolverFunc] is a [Resolver]. *)
Definition as_Resolver (r : ResolverFunc) : Resolver :=
  Some {| Validate := ResolverFunc_Validate r; Resolve := ResolverFunc_Resolve r |}.

(** Calling a method of an interface value; on the nil interface it panics. *)
Definition call_Validate (r : Resolver) (app : Application) : Go.M error :=
  m ← deref r; Validate m app.

Definition call_Resolve (r : Resolver)
  (context : Context) (parent : Path) (flag : option Flag) : Go.M (value * error) :=
  m ← deref r; Resolve m context parent flag.

(** The function literal of [DefaultsResolver]. *)
Definition DefaultsResolver_func : func :=
  fun context parent flag =>
    flag ← deref flag;
    if String.eqb (Default (Tag flag)) "" then mret (nil, None)
    else mret (VString (Default (Tag flag)), None).

Definition DefaultsResolver : Resolver :=
  as_Resolver (Some DefaultsResolver_func).

(** The function literal of [EnvarResolver]. *)
Definition EnvarResolver_func : func :=
  fun context parent flag =>
    flag ← deref flag;
    if String.eqb (Env (Tag flag)) "" then mret (nil, None)
    else
      envar ← os.Getenv (Env (Tag flag));
      if negb (String.eqb envar "") then mret (VString envar, None)
      else mret (nil, None).

Definition EnvarResolver : Resolver :=
  as_Resolver (Some EnvarResolver_func).

(** The function literal [f] of [JSON]; it captures the variable
    [values], which is at [values] in the heap. *)
Definition JSON_func (values : nat) : func :=
  fun context parent flag =>
    flag ← deref flag;
    let name := strings.Replace (Name flag) "-" "_" (-1) in
    values ← load values;
    let '(raw, ok) := index values name in
    if negb ok then mret (nil, None)
    else mret (raw, None).

Definition JSON (r : json.Reader) : Go.M (Resolver * error) :=
  values ← declare (table ∅);
  err ← json.Decode r values;
  match err with
  | Some _ => mret (None, err)
  | None => mret (as_Resolver (Some (JSON_func values)), None)
  end.

End Resolver.
End kong.

Arguments kong.Default {TagFields} _.
Arguments kong.Env {TagFields} _.
Arguments kong.Tag_others {TagFields} _.
Arguments kong.mkTag {TagFields} _ _ _.
Arguments kong.Name {FlagFields TagFields} _.
Arguments kong.Tag {FlagFields TagFields} _.
Arguments kong.Flag_others {FlagFields TagFields} _.
Arguments kong.mkFlag {FlagFields TagFields} _ _ _.
Arguments kong.Validate {Application Context Path FlagFields TagFields} _ _.
Arguments kong.Resolve {Application Context Path FlagFields TagFields} _ _ _ _.
Arguments kong.mkResolver {Application Context Path FlagFields TagFields} _ _.
Arguments kong.ResolverFunc_Resolve {Context Path FlagFields TagFields} _ _ _ _.
Arguments kong.ResolverFunc_Validate {Application Context Path FlagFields TagFields} _ _.
Arguments kong.as_Resolver {Application Context Path FlagFields TagFields} _.
Arguments kong.call_Validate {Application Context Path FlagFields TagFields} _ _.
Arguments kong.call_Resolve {Application Context Path FlagFields TagFields} _ _ _ _.
Arguments kong.DefaultsResolver_func {Context Path FlagFields TagFields} _ _ _.
Arguments kong.DefaultsResolver {Application Context Path FlagFields TagFields}.
Arguments kong.EnvarResolver_func {Context Path FlagFields TagFields} _ _ _.
Arguments kong.EnvarResolver {Application Context Path FlagFields TagFields}.
Arguments kong.JSON_func {Context Path FlagFields TagFields} _ _ _ _.
Arguments kong.JSON {Application Context Path FlagFields TagFields} _.

(** ** Documents used in the statements below *)

Module examples.

(** A key or a string value between double quotes. *)
Definition quoted (s : string) : string :=
  String json.DQ s +:+ String json.DQ "".

(** The document [{QUOTE max_retries QUOTE : 3, QUOTE name QUOTE : QUOTE x QUOTE}]. *)
Definition max_retries_document : json.Reader :=
  "{" +:+ quoted "max_retries" +:+ ": 3, " +:+ quoted "name" +:+ ": " +:+ quoted "x" +:+ "}".

(** The document whose only key holds null. *)
Definition flag_a_null_document : json.Reader :=
  "{" +:+ quoted "flag_a" +:+ ": null}".

(** A document whose key has a hyphen, and one with both spellings. *)
Definition hyphen_key_document : json.Reader :=
  "{" +:+ quoted "max-retries" +:+ ": 5}".

Definition both_keys_document : json.Reader :=
  "{" +:+ quoted "max-retries" +:+ ": 5, " +:+ quoted "max_retries" +:+ ": 3}".

(** The float64 values 3 and 5. *)
Definition three : spec_float := S754_finite false 6755399441055744 (-51).
Definition five : spec_float := S754_finite false 5629499534213120 (-50).

(** A well-formed object with a number too large for a float64. *)
Definition huge_number_document : json.Reader :=
  "{" +:+ quoted "a" +:+ ": 1e999}".

(** A world with no environment variable and no captured variable. *)
Definition empty_world : World := {| environ := ∅; heap := [] |}.

(** A decoded document with the key max_retries, the same key spelled
    with a hyphen, and a key that holds null. *)
Definition sample_document : gmap string value :=
  <["max_retries" := VFloat64 three]>
    (<["max-retries" := VFloat64 five]> (<["flag_a" := nil]> ∅)).

(** A world where FOO is bar and EMPTY is set to the empty string, and
    where one captured variable holds [sample_document]. *)
Definition sample_world : World :=
  {| environ := <["FOO" := "bar"]> (<["EMPTY" := ""]> ∅);
     heap := [table sample_document] |}.

(** A flag with nothing but a name, a default and an environment variable. *)
Definition flag (name default env : string) : kong.Flag unit unit :=
  kong.mkFlag name (kong.mkTag default env tt) tt.

(** What a caller does with a source: build the resolver, then ask it
    for a flag. *)
Definition JSON_then_Resolve {Application Context Path FlagFields TagFields : Type}
    (r : json.Reader) (context : Context) (parent : Path)
    (flag : option (kong.Flag FlagFields TagFields)) : Go.M (value * error) :=
  '(resolver, _) ← kong.JSON (Application := Application) r;
  kong.call_Resolve resolver context parent flag.

End examples.

(** ** The words of the specification *)

Module spec.

(** The lookup key of a flag name: every hyphen replaced with an
    underscore. *)
Fixpoint hyphens_to_underscores (name : string) : string :=
  match name with
  | "" => ""
  | String c name' =>
      String (if Ascii.eqb c "-" then "_"%char else c) (hyphens_to_underscores name')
  end.

(** The bytes of a string. *)
Fixpoint bytes (s : string) : list ascii :=
  match s with
  | "" => []
  | String c s' => c :: bytes s'
  end.

End spec.

(** ** Well-formed JSON text

    The grammar of RFC 8259, read from the head of a stream: each
    relation says that a piece of text leads from a stream to what is
    left of it. *)

Module grammar.

(** The four white space bytes: space, tab, line feed, carriage return. *)
Definition space (c : ascii) : bool :=
  Ascii.eqb c " " || Ascii.eqb c "009" || Ascii.eqb c "010" || Ascii.eqb c "013".

Definition digit (c : ascii) : bool :=
  (48 <=? nat_of_ascii c)%nat && (nat_of_ascii c <=? 57)%nat.

Definition hexdigit (c : ascii) : bool :=
  digit c
  || (97 <=? nat_of_ascii c)%nat && (nat_of_ascii c <=? 102)%nat
  || (65 <=? nat_of_ascii c)%nat && (nat_of_ascii c <=? 70)%nat.

(** A byte that stands for itself inside a string: any byte from 0x20
    up but the double quote and the backslash.  (A byte sequence that is
    not UTF-8 is let through.) *)
Definition plain (c : ascii) : bool :=
  (32 <=? nat_of_ascii c)%nat && negb (Ascii.eqb c "034") && negb (Ascii.eqb c "\").

(** The letters that may follow a backslash, u apart. *)
Definition escape_letter (c : ascii) : bool :=
  Ascii.eqb c "034" || Ascii.eqb c "\" || Ascii.eqb c "/" || Ascii.eqb c "b"
  || Ascii.eqb c "f" || Ascii.eqb c "n" || Ascii.eqb c "r" || Ascii.eqb c "t".

(** [blank s rest]: [s] is [rest] after some white space, or none. *)
Inductive blank : string -> string -> Prop :=
| blank_none s : blank s s
| blank_more c s rest : space c = true -> blank s rest -> blank (String c s) rest.

(** One digit or more. *)
Inductive digits : string -> Prop :=
| digits_one c : digit c = true -> digits (String c "")
| digits_more c ds : digit c = true -> digits ds -> digits (String c ds).

(** The integer part: a zero, or digits that start with another digit. *)
Inductive int_text : string -> Prop :=
| int_zero : int_text "0"
| int_digit c : digit c = true -> c <> "0"%char -> int_text (String c "")
| int_digits c ds : digit c = true -> c <> "0"%char -> digits ds -> int_text (String c ds).

Inductive frac_text : string -> Prop :=
| frac_none : frac_text ""
| frac_some ds : digits ds -> frac_text (String "." ds).

Inductive exp_text : string -> Prop :=
| exp_none : exp_text ""
| exp_unsigned e ds :
    e = "e"%char \/ e = "E"%char -> digits ds -> exp_text (String e ds)
| exp_signed e sg ds :
    e = "e"%char \/ e = "E"%char -> sg = "+"%char \/ sg = "-"%char -> digits ds ->
    exp_text (String e (String sg ds)).

(** number = [ minus ] int [ frac ] [ exp ] *)
Inductive number_text : string -> Prop :=
| number_positive i f e :
    int_text i -> frac_text f -> exp_text e -> number_text (i +:+ f +:+ e)
| number_negative i f e :
    int_text i -> frac_text f -> exp_text e -> number_text (String "-" (i +:+ f +:+ e)).

(** [chars s rest]: the characters of a string and its closing quote
    lead from [s] to [rest]. *)
Inductive chars : string -> string -> Prop :=
| chars_close rest : chars (String "034" rest) rest
| chars_plain c s rest : plain c = true -> chars s rest -> chars (String c s) rest
| chars_escape e s rest :
    escape_letter e = true -> chars s rest -> chars (String "\" (String e s)) rest
| chars_unicode h1 h2 h3 h4 s rest :
    hexdigit h1 = true -> hexdigit h2 = true -> hexdigit h3 = true -> hexdigit h4 = true ->
    chars s rest ->
    chars (String "\" (String "u" (String h1 (String h2 (String h3 (String h4 s)))))) rest.

(** [value fits d s rest]: a JSON value with at most [d] arrays and
    objects inside one another, whose numbers all satisfy [fits], leads
    from [s] to [rest]; [elements] and [members] lead from behind the
    opening bracket or brace, or behind a comma, to behind the closing
    one. *)
Inductive value (fits : string -> Prop) : nat -> string -> string -> Prop :=
| value_null d rest : value fits d ("null" +:+ rest) rest
| value_true d rest : value fits d ("true" +:+ rest) rest
| value_false d rest : value fits d ("false" +:+ rest) rest
| value_number d n rest : number_text n -> fits n -> value fits d (n +:+ rest) rest
| value_string d s rest : chars s rest -> value fits d (String "034" s) rest
| value_empty_array d s rest :
    blank s (String "]" rest) -> value fits (S d) (String "[" s) rest
| value_array d s rest :
    elements fits d s rest -> value fits (S d) (String "[" s) rest
| value_empty_object d s rest :
    blank s (String "}" rest) -> value fits (S d) (String "{" s) rest
| value_object d s rest :
    members fits d s rest -> value fits (S d) (String "{" s) rest

with elements (fits : string -> Prop) : nat -> string -> string -> Prop :=
| elements_last d s v t rest :
    blank s v -> value fits d v t -> blank t (String "]" rest) ->
    elements fits d s rest
| elements_more d s v t u rest :
    blank s v -> value fits d v t -> blank t (String "," u) ->
    elements fits d u rest ->
    elements fits d s rest

with members (fits : string -> Prop) : nat -> string -> string -> Prop :=
| members_last d s k t u v x rest :
    blank s (String "034" k) -> chars k t -> blank t (String ":" u) ->
    blank u v -> value fits d v x -> blank x (String "}" rest) ->
    members fits d s rest
| members_more d s k t u v x y rest :
    blank s (String "034" k) -> chars k t -> blank t (String ":" u) ->
    blank u v -> value fits d v x -> blank x (String "," y) ->
    members fits d y rest ->
    members fits d s rest.

(** A number literal fits when [strconv.ParseFloat] reports no range
    error for it: the value read rounds to a finite float64. *)
Definition finite (n : string) : Prop := snd (strconv.ParseFloat n) = true.

(** The streams that begin, after white space, with the literal null or
    with an object nested at most 10000 deep whose numbers are finite. *)
Definition null_or_object (r : string) : Prop :=
  exists s rest,
    blank r s /\
    (s = "null" +:+ rest \/
     (exists s', s = String "{" s') /\ value finite json.maxNestingDepth s rest).

(** The streams that are one JSON object, white space around it apart:
    well-formed JSON with an object at the top level. *)
Definition whole_object (r : string) : Prop :=
  exists d s rest,
    blank r (String "{" s) /\
    value (fun _ => True) d (String "{" s) rest /\
    blank rest "".

End grammar.

(** ** Measures used in the proofs *)

Module measure.

(** Reading [s] went well if it was not cut short by the recursion
    budget and left less than [s] to read. *)
Definition reads {A} (m : json.scan A) (s : string) : Prop :=
  match m with
  | json.Ok _ rest => (String.length rest < String.length s)%nat
  | json.Fuel => False
  | _ => True
  end.

(** The same, when nothing need be read. *)
Definition reads_le {A} (m : json.scan A) (s : string) : Prop :=
  match m with
  | json.Ok _ rest => (String.length rest <= String.length s)%nat
  | json.Fuel => False
  | _ => True
  end.
End measure.

Module follow.
(** What comes behind a number must not go on with it. *)
Definition no_digit (rest : string) : Prop :=
  match rest with
  | "" => True
  | String c _ => grammar.digit c = false
  end.

Definition ends_number (rest : string) : Prop :=
  match rest with
  | "" => True
  | String c _ =>
      grammar.digit c = false /\ c <> "."%char /\ c <> "e"%char /\ c <> "E"%char
  end.

(** The first [k] bytes are there and are 0x80 or more. *)
Fixpoint high (k : nat) (s : string) : Prop :=
  match k with
  | O => True
  | S k' =>
      match s with
      | "" => False
      | String c s' => (128 <= nat_of_ascii c)%nat /\ high k' s'
      end
  end.
End follow.

(** * Properties *)

(** ** The decoder reads on and its recursion budget is enough *)

Lemma reads_with_result {A B} (f : A -> B) m s :
  measure.reads m s -> measure.reads (json.with_result f m) s.
Proof. by destruct m. Qed.

Lemma reads_le_with_result {A B} (f : A -> B) m s :
  measure.reads_le m s -> measure.reads_le (json.with_result f m) s.
Proof. by destruct m. Qed.

Lemma reads_weaken {A} (m : json.scan A) s : measure.reads m s -> measure.reads_le m s.
Proof. destruct m; cbn; lia. Qed.

Lemma reads_longer {A} (m : json.scan A) s t :
  measure.reads m s -> (String.length s <= String.length t)%nat -> measure.reads m t.
Proof. destruct m; cbn; lia. Qed.

Lemma reads_le_longer {A} (m : json.scan A) s t :
  measure.reads_le m s -> (String.length s < String.length t)%nat -> measure.reads m t.
Proof. destruct m; cbn; lia. Qed.

Lemma reads_and_then {A B} (m : json.scan A) (k : A -> string -> json.scan B) s :
  measure.reads_le m s -> (forall a rest, m = json.Ok a rest -> measure.reads (k a rest) rest) ->
  measure.reads (json.and_then m k) s.
Proof.
  destruct m as [a rest| | |]; cbn; try done.
  intros Hm Hk. specialize (Hk a rest eq_refl). destruct (k a rest); cbn in *; lia.
Qed.

Lemma skipSpace_length s : (String.length (json.skipSpace s) <= String.length s)%nat.
Proof.
  induction s as [|c s IH]; cbn; [lia|]. destruct (json.isSpace c); cbn; lia.
Qed.

Lemma literal_reads expected s : measure.reads_le (json.literal expected s) s.
Proof.
  revert s. induction expected as [|e expected IH]; intros s; cbn; [lia|].
  destruct s as [|c s]; [done|]. destruct (Ascii.eqb c e); [|done].
  specialize (IH s). destruct (json.literal expected s); cbn in *; lia.
Qed.

Lemma digits_length s : (String.length (snd (json.digits s)) <= String.length s)%nat.
Proof.
  induction s as [|c s IH]; cbn; [lia|].
  destruct (json.isDigit c); cbn; [|lia]. destruct (json.digits s); cbn in *; lia.
Qed.

Lemma digits1_reads s : measure.reads (json.digits1 s) s.
Proof.
  destruct s as [|c s]; [done|]. unfold json.digits1.
  destruct (json.isDigit c) eqn:Hc; [|done].
  cbn [json.digits]. rewrite Hc.
  pose proof (digits_length s). destruct (json.digits s); cbn in *; lia.
Qed.

Lemma exponent_reads s : measure.reads_le (json.exponent s) s.
Proof.
  destruct s as [|c s]; cbn; [lia|].
  destruct (_ || _); [|cbn; lia].
  destruct s as [|sg s]; [done|].
  destruct (_ || _).
  - apply reads_le_with_result, reads_weaken.
    eapply reads_longer; [apply digits1_reads|cbn; lia].
  - apply reads_le_with_result, reads_weaken.
    eapply reads_longer; [apply digits1_reads|cbn; lia].
Qed.

Lemma fraction_reads s : measure.reads_le (json.fraction s) s.
Proof.
  destruct s as [|c s]; [cbn; lia|]. unfold json.fraction.
  destruct (Ascii.eqb c "."); [|apply exponent_reads].
  pose proof (digits1_reads s) as Hd.
  destruct (json.digits1 s) as [ds rest| | |]; cbn in *; try done.
  pose proof (exponent_reads rest) as He.
  destruct (json.exponent rest); cbn in *; try done. lia.
Qed.

Lemma unsigned_reads s : measure.reads (json.unsigned s) s.
Proof.
  destruct s as [|c s]; [done|]. unfold json.unsigned.
  destruct (Ascii.eqb c "0").
  - apply reads_with_result. eapply reads_le_longer; [apply fraction_reads|cbn; lia].
  - destruct (json.isDigit c); [|done].
    pose proof (digits_length s). destruct (json.digits s) as [ds rest].
    apply reads_with_result. eapply reads_le_longer; [apply fraction_reads|cbn in *; lia].
Qed.

Lemma number_reads s : measure.reads (json.number s) s.
Proof.
  destruct s as [|c s]; [done|]. unfold json.number.
  destruct (Ascii.eqb c "-"); [|apply unsigned_reads].
  apply reads_with_result. eapply reads_longer; [apply unsigned_reads|cbn; lia].
Qed.

Lemma hex_cut_short_reads {A} t s : measure.reads (json.hex_cut_short (A := A) t) s.
Proof. induction t as [|c t IH]; cbn; [done|]. by destruct (json.hex c). Qed.

Lemma stringBody_reads_upto n skip s :
  (String.length s <= n)%nat -> measure.reads (json.stringBody skip s) s.
Proof.
  revert skip s. induction n as [|n IH]; intros skip s Hn.
  { destruct s; [done|cbn in Hn; lia]. }
  assert (Hrec : forall (B : Type) (f : string -> B) k t,
             (String.length t < String.length s)%nat ->
             measure.reads (json.with_result f (json.stringBody k t)) s).
  { intros B f k t Ht. apply reads_with_result.
    eapply reads_longer; [apply IH|]; lia. }
  destruct s as [|c s']; [done|]. cbn [String.length] in *.
  cbn [json.stringBody]. destruct skip as [|k]; [|apply Hrec; lia].
  destruct (Ascii.eqb c json.DQ); [cbn; lia|].
  destruct (Ascii.eqb c "\").
  - destruct s' as [|e s'']; [done|].
    destruct (Ascii.eqb e "u").
    + destruct s'' as [|h1 [|h2 [|h3 [|h4 rest]]]];
        try (cbn [json.hex_cut_short];
             repeat (match goal with |- context [json.hex ?x] => destruct (json.hex x) end);
             done).
      destruct (json.hex4 h1 h2 h3 h4); [|done].
      destruct (json.IsSurrogate _); [|apply Hrec; cbn; lia].
      destruct rest as [|b [|u [|l1 [|l2 [|l3 [|l4 rest']]]]]]; try (apply Hrec; cbn; lia).
      destruct (if (_ && _)%bool then _ else _); [|apply Hrec; cbn; lia].
      destruct (json.DecodeRune _ _); apply Hrec; cbn; lia.
    + destruct (json.escape e); [|done]. apply Hrec; cbn; lia.
  - destruct (_ <? 32)%nat; [done|].
    destruct (_ <? 128)%nat; [apply Hrec; cbn; lia|].
    destruct (utf8.DecodeRuneInString _) as [[] size]; apply Hrec; cbn; lia.
Qed.

Lemma stringBody_reads skip s : measure.reads (json.stringBody skip s) s.
Proof. by apply (stringBody_reads_upto (String.length s)). Qed.

Lemma values_read fuel :
  (forall depth s, (2 * String.length s + 1 <= fuel)%nat ->
     measure.reads (json.valueInterface fuel depth s) s) /\
  (forall depth acc saved s, (2 * String.length s + 2 <= fuel)%nat ->
     measure.reads (json.elements fuel depth acc saved s) s) /\
  (forall depth m saved s, (2 * String.length s + 2 <= fuel)%nat ->
     measure.reads (json.members fuel depth m saved s) s).
Proof.
  induction fuel as [|fuel (IHv & IHe & IHm)].
  { repeat split; intros; lia. }
  split; [|split].
  - intros depth s Hfuel. cbn [json.valueInterface].
    pose proof (skipSpace_length s) as Hs.
    destruct (json.skipSpace s) as [|c s']; [done|]. cbn [String.length] in Hs.
    destruct (Ascii.eqb c "{").
    { destruct (depth <? _)%nat; [|done].
      pose proof (skipSpace_length s') as Hs'.
      destruct (json.skipSpace s') as [|c' s'']; [done|]. cbn [String.length] in Hs'.
      destruct (Ascii.eqb c' "}"); [cbn; lia|].
      apply reads_with_result. eapply reads_longer; [apply IHm|]; lia. }
    destruct (Ascii.eqb c "[").
    { destruct (depth <? _)%nat; [|done].
      pose proof (skipSpace_length s') as Hs'.
      destruct (json.skipSpace s') as [|c' s'']; [done|]. cbn [String.length] in Hs'.
      destruct (Ascii.eqb c' "]"); [cbn; lia|].
      apply reads_with_result. eapply reads_longer; [apply IHe|]; lia. }
    destruct (Ascii.eqb c json.DQ).
    { apply reads_with_result. eapply reads_longer; [apply stringBody_reads|]; lia. }
    destruct (Ascii.eqb c "t").
    { apply reads_with_result. eapply reads_le_longer; [apply literal_reads|]; lia. }
    destruct (Ascii.eqb c "f").
    { apply reads_with_result. eapply reads_le_longer; [apply literal_reads|]; lia. }
    destruct (Ascii.eqb c "n").
    { apply reads_with_result. eapply reads_le_longer; [apply literal_reads|]; lia. }
    destruct (_ || _); [|done].
    apply reads_with_result. eapply reads_longer; [apply number_reads|cbn; lia].
  - intros depth acc saved s Hfuel. cbn [json.elements].
    apply reads_and_then; [apply reads_weaken, IHv; lia|].
    intros [v err] rest Hv. pose proof (IHv depth s ltac:(lia)) as Hrest.
    rewrite Hv in Hrest. cbn in Hrest.
    pose proof (skipSpace_length rest) as Hs.
    destruct (json.skipSpace rest) as [|c rest']; [done|]. cbn [String.length] in Hs.
    destruct (Ascii.eqb c ","); [eapply reads_longer; [apply IHe|]; lia|].
    destruct (Ascii.eqb c "]"); [cbn; lia|done].
  - intros depth m saved s Hfuel. cbn [json.members].
    pose proof (skipSpace_length s) as Hs.
    destruct (json.skipSpace s) as [|q s']; [done|]. cbn [String.length] in Hs.
    destruct (Ascii.eqb q json.DQ); [|done].
    eapply reads_longer with (s := s'); [|lia].
    apply reads_and_then; [apply reads_weaken, stringBody_reads|].
    intros key rest Hkey. pose proof (stringBody_reads 0 s') as Hrest.
    rewrite Hkey in Hrest. cbn in Hrest.
    pose proof (skipSpace_length rest) as Hs'.
    destruct (json.skipSpace rest) as [|c rest']; [done|]. cbn [String.length] in Hs'.
    destruct (Ascii.eqb c ":"); [|done].
    eapply reads_longer with (s := rest'); [|lia].
    apply reads_and_then; [apply reads_weaken, IHv; lia|].
    intros [v err] rest'' Hv. pose proof (IHv depth rest' ltac:(lia)) as Hrest''.
    rewrite Hv in Hrest''. cbn in Hrest''.
    pose proof (skipSpace_length rest'') as Hs''.
    destruct (json.skipSpace rest'') as [|c' rest''']; [done|]. cbn [String.length] in Hs''.
    destruct (Ascii.eqb c' ","); [eapply reads_longer; [apply IHm|]; lia|].
    destruct (Ascii.eqb c' "}"); [cbn; lia|done].
Qed.

(** The budget [fuel_for] is never used up. *)
Lemma valueInterface_fuel buf depth :
  json.valueInterface (json.fuel_for buf) depth buf <> json.Fuel.
Proof.
  pose proof (proj1 (values_read (json.fuel_for buf)) depth buf) as H.
  intros E. rewrite E in H. apply H. unfold json.fuel_for. lia.
Qed.

Lemma members_fuel buf c s depth m saved :
  json.skipSpace buf = String c s ->
  json.members (json.fuel_for buf) depth m saved s <> json.Fuel.
Proof.
  intros Hbuf. pose proof (skipSpace_length buf) as Hlen. rewrite Hbuf in Hlen.
  cbn [String.length] in Hlen.
  pose proof (proj2 (proj2 (values_read (json.fuel_for buf))) depth m saved s) as H.
  intros E. rewrite E in H. apply H. unfold json.fuel_for. lia.
Qed.

(** ** strings.Replace on hyphens *)

Lemma HasPrefix_empty s : strings.HasPrefix s "" = true.
Proof. by destruct s. Qed.

Lemma count_byte_Index s b :
  (0 < strings.count_byte s b)%nat -> exists j, strings.Index s (String b "") = Some j.
Proof.
  induction s as [|c s IH]; [cbn; lia|].
  cbn [strings.count_byte strings.Index strings.HasPrefix].
  rewrite HasPrefix_empty, andb_true_r.
  destruct (Ascii.eqb c b); cbn [Nat.add]; [eauto|].
  intros H. destruct (IH H) as [j ->]. cbn. eauto.
Qed.

Lemma replace_from_other n first c s old new :
  old <> "" -> strings.HasPrefix (String c s) old = false ->
  (n = 0%nat \/ is_Some (strings.Index s old)) ->
  strings.replace_from n first (String c s) old new =
  String c (strings.replace_from n first s old new).
Proof.
  intros Hold Hpre Hn. destruct n as [|n]; [reflexivity|].
  destruct Hn as [Hn|[j Hj]]; [discriminate|].
  destruct old as [|o old]; [congruence|].
  cbn [strings.replace_from]. cbn [strings.Index]. rewrite Hpre, Hj. reflexivity.
Qed.

Lemma replace_from_hyphens s first :
  strings.replace_from (strings.count_byte s "-") first s "-" "_" =
  spec.hyphens_to_underscores s.
Proof.
  revert first. induction s as [|c s IH]; intros first; [reflexivity|].
  cbn [strings.count_byte spec.hyphens_to_underscores].
  destruct (Ascii.eqb c "-") eqn:Hc.
  - cbn [Nat.add strings.replace_from strings.Index strings.HasPrefix].
    rewrite Hc, HasPrefix_empty. cbn [andb strings.take strings.drop Nat.add String.length].
    change ("" +:+ "_" +:+ ?x) with (String "_" x). f_equal. apply (IH false).
  - cbn [Nat.add]. rewrite replace_from_other.
    + f_equal. apply IH.
    + discriminate.
    + cbn [strings.HasPrefix]. by rewrite Hc.
    + destruct (strings.count_byte s "-") eqn:Hn; [by left|right].
      destruct (count_byte_Index s "-") as [j Hj]; [lia|]. by exists j.
Qed.

Lemma count_byte_zero s :
  strings.count_byte s "-" = 0%nat -> spec.hyphens_to_underscores s = s.
Proof.
  induction s as [|c s IH]; [reflexivity|]. cbn.
  destruct (Ascii.eqb c "-"); cbn; [discriminate|].
  intros H. by rewrite IH.
Qed.

Lemma Replace_hyphens s :
  strings.Replace s "-" "_" (-1) = spec.hyphens_to_underscores s.
Proof.
  unfold strings.Replace. cbn [String.eqb Ascii.eqb Bool.eqb orb Z.eqb Z.ltb Z.compare].
  change (strings.Count s "-") with (strings.count_byte s "-").
  destruct (Nat.eqb_spec (strings.count_byte s "-") 0) as [H0|_].
  - symmetry. by apply count_byte_zero.
  - apply replace_from_hyphens.
Qed.

Lemma hyphens_to_underscores_no_hyphen s :
  "-"%char ∉ spec.bytes (spec.hyphens_to_underscores s).
Proof.
  induction s as [|c s IH]; cbn; [apply not_elem_of_nil|].
  rewrite not_elem_of_cons. split; [|exact IH].
  destruct (Ascii.eqb_spec c "-"); [discriminate|congruence].
Qed.


(** ** The decoder and the grammar

    The decoder reads a value, elements or members exactly where the
    grammar has them. *)

Section Grammar.

#[local] Arguments String.append : simpl nomatch.

Scheme value_min := Minimality for grammar.value Sort Prop
  with elements_min := Minimality for grammar.elements Sort Prop
  with members_min := Minimality for grammar.members Sort Prop.
Combined Scheme value_elements_members from value_min, elements_min, members_min.

(** ** Strings of bytes *)

Lemma append_nil_r (s : string) : s +:+ "" = s.
Proof. induction s as [|c s IH]; [done|]. cbn [String.append]. by rewrite IH. Qed.

Lemma append_assoc (s t u : string) : (s +:+ t) +:+ u = s +:+ t +:+ u.
Proof. induction s as [|c s IH]; [done|]. cbn [String.append]. by rewrite IH. Qed.

(** ** Bytes *)

Ltac bytes c := destruct c as [[] [] [] [] [] [] [] []].

Lemma isSpace_space c : json.isSpace c = grammar.space c.
Proof. by bytes c. Qed.

Lemma isDigit_digit c : json.isDigit c = grammar.digit c.
Proof. by bytes c. Qed.

Lemma hex_hexdigit c : is_Some (json.hex c) <-> grammar.hexdigit c = true.
Proof. bytes c; vm_compute; split; (done || by eexists || by intros [? ?]). Qed.

Lemma escape_escape_letter c : is_Some (json.escape c) <-> grammar.escape_letter c = true.
Proof. bytes c; vm_compute; split; (done || by eexists || by intros [? ?]). Qed.

Lemma escape_letter_not_u c : grammar.escape_letter c = true -> Ascii.eqb c "u" = false.
Proof. by bytes c. Qed.

Lemma hex4_hexdigits a b c d :
  is_Some (json.hex4 a b c d) <->
  grammar.hexdigit a = true /\ grammar.hexdigit b = true /\
  grammar.hexdigit c = true /\ grammar.hexdigit d = true.
Proof.
  rewrite <- !hex_hexdigit. unfold json.hex4.
  destruct (json.hex a), (json.hex b), (json.hex c), (json.hex d);
    split; try (by intros [? ?]); try (by intros ([? ?] & [? ?] & [? ?] & [? ?]));
    try (intros _; by repeat split; eexists); by eexists.
Qed.

(** ** White space *)

Lemma skipSpace_blank s : grammar.blank s (json.skipSpace s).
Proof.
  induction s as [|c s IH]; cbn; [constructor|].
  destruct (json.isSpace c) eqn:Hc; [|constructor].
  constructor; [by rewrite <- isSpace_space|done].
Qed.

Lemma blank_skipSpace s v : grammar.blank s v -> json.skipSpace s = json.skipSpace v.
Proof.
  induction 1 as [|c s rest Hc _ IH]; [done|]. cbn. by rewrite isSpace_space, Hc.
Qed.

Lemma skipSpace_head c s : grammar.space c = false -> json.skipSpace (String c s) = String c s.
Proof. intros Hc. cbn. by rewrite isSpace_space, Hc. Qed.

Lemma blank_length s v : grammar.blank s v -> (String.length v <= String.length s)%nat.
Proof. induction 1; cbn; lia. Qed.

Lemma blank_trans s t u : grammar.blank s t -> grammar.blank t u -> grammar.blank s u.
Proof. induction 1; [done|]. intros. constructor; auto. Qed.

(** ** Numbers *)

Lemma digits_head ds :
  grammar.digits ds -> exists c ds', ds = String c ds' /\ grammar.digit c = true.
Proof. destruct 1; eauto. Qed.

Lemma json_digits_stop rest : follow.no_digit rest -> json.digits rest = ("", rest).
Proof.
  destruct rest as [|c rest]; [done|]. cbn. intros Hc. by rewrite isDigit_digit, Hc.
Qed.

Lemma digits_complete ds rest :
  grammar.digits ds -> follow.no_digit rest -> json.digits (ds +:+ rest) = (ds, rest).
Proof.
  intros Hds Hrest. induction Hds as [c Hc|c ds Hc _ IH]; cbn [String.append json.digits].
  - rewrite isDigit_digit, Hc. change ("" +:+ rest) with rest.
    by rewrite json_digits_stop.
  - by rewrite isDigit_digit, Hc, IH.
Qed.

Lemma digits1_complete ds rest :
  grammar.digits ds -> follow.no_digit rest -> json.digits1 (ds +:+ rest) = json.Ok ds rest.
Proof.
  intros Hds Hrest. pose proof (digits_complete ds rest Hds Hrest) as H.
  destruct (digits_head ds Hds) as (c & ds' & -> & Hc).
  unfold json.digits1. cbn [String.append] in *. by rewrite isDigit_digit, Hc, H.
Qed.

Lemma digits_sound s :
  s = fst (json.digits s) +:+ snd (json.digits s) /\
  (fst (json.digits s) = "" \/ grammar.digits (fst (json.digits s))) /\
  follow.no_digit (snd (json.digits s)).
Proof.
  induction s as [|c s (IH1 & IH2 & IH3)]; cbn; [by auto|].
  destruct (json.isDigit c) eqn:Hc; rewrite isDigit_digit in Hc.
  - destruct (json.digits s) as [ds rest]. cbn in *. split; [by rewrite <- IH1|].
    split; [right|done]. destruct IH2 as [->|IH2]; by constructor.
  - cbn. auto.
Qed.

Lemma digits1_sound s ds rest :
  json.digits1 s = json.Ok ds rest -> s = ds +:+ rest /\ grammar.digits ds.
Proof.
  unfold json.digits1. destruct s as [|c s]; [done|].
  destruct (json.isDigit c) eqn:Hc; [|done].
  pose proof (digits_sound (String c s)) as (H1 & H2 & _).
  destruct (json.digits (String c s)) as [ds' rest'] eqn:Hd. cbn [fst snd] in *.
  intros [= <- <-]. split; [done|]. destruct H2 as [->|H2]; [|done].
  cbn in Hd. rewrite Hc in Hd. by destruct (json.digits s).
Qed.

Lemma digit_facts c :
  grammar.digit c = true ->
  Ascii.eqb c "." = false /\ Ascii.eqb c "e" = false /\ Ascii.eqb c "E" = false /\
  Ascii.eqb c "+" = false /\ Ascii.eqb c "-" = false.
Proof. by bytes c. Qed.

Lemma ends_number_no_digit rest : follow.ends_number rest -> follow.no_digit rest.
Proof. destruct rest; [done|]. by intros [? _]. Qed.

Lemma exponent_complete e rest :
  grammar.exp_text e -> follow.ends_number rest ->
  json.exponent (e +:+ rest) = json.Ok e rest.
Proof.
  intros He Hrest. pose proof (ends_number_no_digit _ Hrest) as Hnd.
  destruct He as [|e ds He Hds|e sg ds He Hsg Hds].
  - change ("" +:+ rest) with rest. destruct rest as [|c rest]; [done|].
    destruct Hrest as (_ & _ & H1 & H2). cbn.
    destruct (Ascii.eqb_spec c "e"); [done|]. by destruct (Ascii.eqb_spec c "E").
  - cbn [String.append json.exponent].
    replace (Ascii.eqb e "e" || Ascii.eqb e "E") with true by (by destruct He as [->| ->]).
    destruct (digits_head ds Hds) as (c & ds' & Heq & Hc).
    destruct (digit_facts c Hc) as (_ & _ & _ & Hp & Hm).
    pose proof (digits1_complete ds rest Hds Hnd) as Hd. rewrite Heq in *.
    cbn [String.append] in *. by rewrite Hp, Hm, Hd.
  - cbn [String.append json.exponent].
    replace (Ascii.eqb e "e" || Ascii.eqb e "E") with true by (by destruct He as [->| ->]).
    replace (Ascii.eqb sg "+" || Ascii.eqb sg "-") with true by (by destruct Hsg as [->| ->]).
    by rewrite (digits1_complete ds rest Hds Hnd).
Qed.

Lemma exponent_sound s e rest :
  json.exponent s = json.Ok e rest -> s = e +:+ rest /\ grammar.exp_text e.
Proof.
  unfold json.exponent. destruct s as [|c s]; [intros [= <- <-]; split; [done|constructor]|].
  destruct (Ascii.eqb c "e" || Ascii.eqb c "E") eqn:Hc;
    [|intros [= <- <-]; split; [done|constructor]].
  assert (c = "e"%char \/ c = "E"%char) as Hc'.
  { destruct (Ascii.eqb_spec c "e"); [by left|]. destruct (Ascii.eqb_spec c "E"); [by right|done]. }
  destruct s as [|sg s]; [done|].
  destruct (Ascii.eqb sg "+" || Ascii.eqb sg "-") eqn:Hsg.
  - assert (sg = "+"%char \/ sg = "-"%char) as Hsg'.
    { destruct (Ascii.eqb_spec sg "+"); [by left|].
      destruct (Ascii.eqb_spec sg "-"); [by right|done]. }
    destruct (json.digits1 s) as [ds r| | |] eqn:Hd; try done.
    apply digits1_sound in Hd as [-> Hds]. intros [= <- <-]. split; [done|].
    by constructor.
  - destruct (json.digits1 (String sg s)) as [ds r| | |] eqn:Hd; try done.
    apply digits1_sound in Hd as [Heq Hds]. intros [= <- <-]. split; [by rewrite Heq|].
    by constructor.
Qed.

Lemma exp_no_digit e rest :
  grammar.exp_text e -> follow.ends_number rest ->
  follow.ends_number (e +:+ rest) \/
  exists c s, e +:+ rest = String c s /\ (c = "e"%char \/ c = "E"%char).
Proof. intros [] ?; [by left|right; eauto|right; eauto]. Qed.

Lemma fraction_complete f e rest :
  grammar.frac_text f -> grammar.exp_text e -> follow.ends_number rest ->
  json.fraction (f +:+ e +:+ rest) = json.Ok (f +:+ e) rest.
Proof.
  intros Hf He Hrest. pose proof (exponent_complete e rest He Hrest) as Hexp.
  destruct Hf as [|ds Hds].
  - change ("" +:+ ?x) with x. unfold json.fraction.
    destruct (e +:+ rest) as [|c s] eqn:Hs; [by destruct e, rest|].
    replace (Ascii.eqb c ".") with false; [done|].
    destruct (exp_no_digit e rest He Hrest) as [H|(c' & s' & Heq & Hc)]; rewrite Hs in *.
    + destruct H as (_ & H & _). by destruct (Ascii.eqb_spec c ".").
    + injection Heq as -> ->. by destruct Hc as [->| ->].
  - cbn [String.append json.fraction Ascii.eqb Bool.eqb]. cbn [andb].
    rewrite digits1_complete; [|done|].
    + cbn. by rewrite Hexp.
    + destruct (exp_no_digit e rest He Hrest) as [H|(c' & s' & -> & Hc)].
      * by apply ends_number_no_digit.
      * by destruct Hc as [->| ->].
Qed.

Lemma fraction_sound s x rest :
  json.fraction s = json.Ok x rest ->
  s = x +:+ rest /\ exists f e, x = f +:+ e /\ grammar.frac_text f /\ grammar.exp_text e.
Proof.
  unfold json.fraction. destruct s as [|c s].
  { intros [= <- <-]. split; [done|]. exists "", "". repeat split; constructor. }
  destruct (Ascii.eqb_spec c ".") as [->|Hc].
  - destruct (json.digits1 s) as [ds r| | |] eqn:Hd; try done. cbn.
    apply digits1_sound in Hd as [-> Hds].
    destruct (json.exponent r) as [e r'| | |] eqn:He; try done. cbn.
    apply exponent_sound in He as [-> He]. intros [= <- <-].
    split; [by cbn [String.append]; rewrite append_assoc|].
    exists (String "." ds), e. repeat split; [by constructor|done].
  - intros [-> He]%exponent_sound. split; [done|].
    exists "", x. repeat split; [constructor|done].
Qed.

Lemma frac_exp_no_digit f e rest :
  grammar.frac_text f -> grammar.exp_text e -> follow.ends_number rest ->
  follow.no_digit (f +:+ e +:+ rest).
Proof.
  intros [] He Hrest; [|done]. change ("" +:+ ?x) with x.
  destruct (exp_no_digit e rest He Hrest) as [H|(c' & s' & -> & Hc)].
  - by apply ends_number_no_digit.
  - by destruct Hc as [->| ->].
Qed.

Lemma unsigned_complete i f e rest :
  grammar.int_text i -> grammar.frac_text f -> grammar.exp_text e ->
  follow.ends_number rest ->
  json.unsigned (i +:+ f +:+ e +:+ rest) = json.Ok (i +:+ f +:+ e) rest.
Proof.
  intros Hi Hf He Hrest. pose proof (fraction_complete f e rest Hf He Hrest) as Hfr.
  pose proof (frac_exp_no_digit f e rest Hf He Hrest) as Hnd.
  destruct Hi as [|c Hc Hc0|c ds Hc Hc0 Hds]; cbn [String.append json.unsigned].
  - cbn. change ("" +:+ ?x) with x. by rewrite Hfr.
  - destruct (Ascii.eqb_spec c "0"); [done|]. rewrite isDigit_digit, Hc.
    change ("" +:+ ?x) with x. rewrite (json_digits_stop _ Hnd). by rewrite Hfr.
  - destruct (Ascii.eqb_spec c "0"); [done|]. rewrite isDigit_digit, Hc.
    rewrite (digits_complete ds _ Hds Hnd). by rewrite Hfr.
Qed.

Lemma unsigned_sound s x rest :
  json.unsigned s = json.Ok x rest ->
  s = x +:+ rest /\
  exists i f e,
    x = i +:+ f +:+ e /\ grammar.int_text i /\ grammar.frac_text f /\ grammar.exp_text e.
Proof.
  unfold json.unsigned. destruct s as [|c s]; [done|].
  destruct (Ascii.eqb_spec c "0") as [->|Hc0].
  - destruct (json.fraction s) as [y r| | |] eqn:Hfr; try done. cbn.
    apply fraction_sound in Hfr as (-> & f & e & -> & Hf & He). intros [= <- <-].
    split; [done|]. exists "0", f, e. repeat split; [constructor|done..].
  - destruct (json.isDigit c) eqn:Hc; [|done]. rewrite isDigit_digit in Hc.
    pose proof (digits_sound s) as (H1 & H2 & _).
    destruct (json.digits s) as [ds r]. cbn [fst snd] in *.
    destruct (json.fraction r) as [y r'| | |] eqn:Hfr; try done. cbn.
    apply fraction_sound in Hfr as (-> & f & e & -> & Hf & He). intros [= <- <-].
    split; [by cbn [String.append]; rewrite H1, !append_assoc|].
    exists (String c ds), f, e. repeat split; [|done..].
    destruct H2 as [->|H2]; by constructor.
Qed.

Lemma number_complete n rest :
  grammar.number_text n -> follow.ends_number rest ->
  json.number (n +:+ rest) = json.Ok n rest.
Proof.
  intros Hn Hrest. destruct Hn as [i f e Hi Hf He|i f e Hi Hf He].
  - rewrite !append_assoc. pose proof (unsigned_complete i f e rest Hi Hf He Hrest) as Hu.
    unfold json.number. destruct (i +:+ f +:+ e +:+ rest) as [|c s] eqn:Hs.
    { by destruct Hi. }
    replace (Ascii.eqb c "-") with false; [done|].
    destruct Hi as [|c' Hc' _|c' ds Hc' _ _]; injection Hs as <- _; [done|..];
      by destruct (digit_facts c' Hc') as (_ & _ & _ & _ & ->).
  - cbn [String.append json.number Ascii.eqb Bool.eqb]. cbn [andb].
    rewrite !append_assoc. by rewrite (unsigned_complete i f e rest Hi Hf He Hrest).
Qed.

Lemma number_sound s n rest :
  json.number s = json.Ok n rest -> s = n +:+ rest /\ grammar.number_text n.
Proof.
  unfold json.number. destruct s as [|c s]; [done|].
  destruct (Ascii.eqb_spec c "-") as [->|Hc].
  - destruct (json.unsigned s) as [x r| | |] eqn:Hu; try done. cbn.
    apply unsigned_sound in Hu as (-> & i & f & e & -> & Hi & Hf & He).
    intros [= <- <-]. split; [done|]. by constructor.
  - intros (-> & i & f & e & -> & Hi & Hf & He)%unsigned_sound.
    split; [done|]. by constructor.
Qed.

Lemma number_head n :
  grammar.number_text n ->
  exists c n', n = String c n' /\ (c = "-"%char \/ grammar.digit c = true).
Proof.
  intros [i f e Hi _ _|i f e _ _ _]; [|eauto].
  destruct Hi; cbn [String.append]; eauto.
Qed.

(** ** Strings *)

Lemma between_high lo hi c :
  (128 <= lo)%nat -> utf8.between lo hi c = true -> (128 <= nat_of_ascii c)%nat.
Proof.
  unfold utf8.between. intros Hlo [H _]%andb_true_iff. apply Nat.leb_le in H. lia.
Qed.

Lemma cont_high c : utf8.cont c = true -> (128 <= nat_of_ascii c)%nat.
Proof. by apply between_high. Qed.

Lemma lead_high c size lo hi : utf8.lead c = Some (size, lo, hi) -> (128 <= lo)%nat.
Proof.
  unfold utf8.lead.
  repeat (match goal with |- context [if ?b then _ else _] => destruct b end);
    intros [= <- <- <-] || done; lia.
Qed.

Lemma DecodeRune_high c s size :
  (128 <= nat_of_ascii c)%nat ->
  utf8.DecodeRuneInString (String c s) = (true, size) ->
  follow.high (Nat.pred size) s.
Proof.
  intros Hc. unfold utf8.DecodeRuneInString.
  destruct (Nat.ltb_spec (nat_of_ascii c) 128); [lia|].
  destruct (utf8.lead c) as [[[n lo] hi]|] eqn:Hlead; [|done].
  apply lead_high in Hlead.
  destruct n as [|[|[|[|[|n]]]]]; try done.
  - destruct s as [|c1 s]; [done|].
    destruct (utf8.between lo hi c1) eqn:H1; [|done]. intros [= <-].
    split; [exact (between_high lo hi c1 Hlead H1)|exact I].
  - destruct s as [|c1 [|c2 s]]; try done.
    destruct (utf8.between lo hi c1) eqn:H1; [|done].
    destruct (utf8.cont c2) eqn:H2; [|done]. intros [= <-].
    split; [exact (between_high lo hi c1 Hlead H1)|].
    split; [exact (cont_high c2 H2)|exact I].
  - destruct s as [|c1 [|c2 [|c3 s]]]; try done.
    destruct (utf8.between lo hi c1) eqn:H1; [|done].
    destruct (utf8.cont c2) eqn:H2; [|done].
    destruct (utf8.cont c3) eqn:H3; [|done]. intros [= <-].
    split; [exact (between_high lo hi c1 Hlead H1)|].
    split; [exact (cont_high c2 H2)|].
    split; [exact (cont_high c3 H3)|exact I].
Qed.

Lemma high_plain c : (128 <= nat_of_ascii c)%nat -> grammar.plain c = true.
Proof.
  intros H. unfold grammar.plain.
  destruct (Ascii.eqb_spec c "034") as [->|_]; [vm_compute in H; lia|].
  destruct (Ascii.eqb_spec c "\") as [->|_]; [vm_compute in H; lia|].
  cbn [negb]. rewrite !andb_true_r. apply Nat.leb_le. lia.
Qed.

Lemma plain_facts c :
  grammar.plain c = true ->
  Ascii.eqb c json.DQ = false /\ Ascii.eqb c "\" = false /\ (nat_of_ascii c <? 32)%nat = false.
Proof. by bytes c. Qed.

Lemma plain_intro c :
  Ascii.eqb c json.DQ = false -> Ascii.eqb c "\" = false -> (nat_of_ascii c <? 32)%nat = false ->
  grammar.plain c = true.
Proof. by bytes c. Qed.

(** A string that starts with a backslash is an escape. *)
Lemma chars_backslash e s rest :
  grammar.chars (String "\" (String e s)) rest ->
  (grammar.escape_letter e = true /\ grammar.chars s rest) \/
  (e = "u"%char /\ exists h1 h2 h3 h4 s',
      s = String h1 (String h2 (String h3 (String h4 s'))) /\
      is_Some (json.hex4 h1 h2 h3 h4) /\ grammar.chars s' rest).
Proof.
  inversion 1; subst; [done|by left|].
  right. split; [done|]. do 5 eexists. split; [done|]. split; [|done].
  by apply hex4_hexdigits.
Qed.

Lemma chars_high c s rest :
  (128 <= nat_of_ascii c)%nat -> grammar.chars (String c s) rest -> grammar.chars s rest.
Proof.
  intros Hc. inversion 1; subst; try done; vm_compute in Hc; lia.
Qed.

Lemma chars_complete_upto n s rest skip :
  (String.length s <= n)%nat -> grammar.chars s rest -> follow.high skip s ->
  exists str, json.stringBody skip s = json.Ok str rest.
Proof.
  revert s skip. induction n as [|n IH]; intros s skip Hn Hs Hskip.
  { destruct s; [inversion Hs|cbn in Hn; lia]. }
  assert (Hrec : forall (f : string -> string) k t,
             (String.length t < String.length s)%nat -> grammar.chars t rest ->
             follow.high k t ->
             exists str, json.with_result f (json.stringBody k t) = json.Ok str rest).
  { intros f k t Ht Hchars Hk. destruct (IH t k) as [str ->]; [lia|done..|]. by eexists. }
  destruct s as [|c s']; [inversion Hs|]. cbn [String.length] in *.
  cbn [json.stringBody]. destruct skip as [|k].
  2:{ destruct Hskip as [Hc Hk]. apply Hrec; [lia| |done]. by eapply chars_high. }
  inversion Hs as [|c' s0 rest0 Hc Hs'|e s'' rest0 He Hs'|h1 h2 h3 h4 s'' rest0 H1 H2 H3 H4 Hs'];
    subst.
  - by eexists.
  - destruct (plain_facts c Hc) as (-> & -> & ->).
    destruct (_ <? 128)%nat eqn:Hascii; [by apply Hrec; [lia|..]|].
    apply Nat.ltb_ge in Hascii.
    destruct (utf8.DecodeRuneInString _) as [[] size] eqn:Hdec.
    + apply Hrec; [lia|done|]. by eapply DecodeRune_high.
    + by apply Hrec; [lia|..].
  - cbn [Ascii.eqb Bool.eqb json.DQ]. cbn [andb].
    rewrite (escape_letter_not_u e He).
    destruct (proj2 (escape_escape_letter e) He) as [b ->].
    apply Hrec; [cbn; lia|done..].
  - cbn [Ascii.eqb Bool.eqb json.DQ]. cbn [andb].
    destruct (proj2 (hex4_hexdigits h1 h2 h3 h4)) as [rr ->]; [done|].
    destruct (json.IsSurrogate rr); [|by apply Hrec; [cbn; lia|..]].
    destruct s'' as [|b [|u [|l1 [|l2 [|l3 [|l4 rest']]]]]];
      try (by apply Hrec; [cbn; lia|..]).
    destruct (Ascii.eqb_spec b "\") as [->|]; [|by apply Hrec; [cbn; lia|..]].
    destruct (Ascii.eqb_spec u "u") as [->|]; [|by apply Hrec; [cbn; lia|..]].
    cbn [andb].
    destruct (json.hex4 l1 l2 l3 l4) as [rr1|] eqn:Hl; [|by apply Hrec; [cbn; lia|..]].
    destruct (json.DecodeRune rr rr1); [|by apply Hrec; [cbn; lia|..]].
    apply Hrec; [cbn; lia| |done].
    apply chars_backslash in Hs' as [[He _]|(_ & ? & ? & ? & ? & ? & [= <- <- <- <- <-] & _ & ?)];
      done.
Qed.

Lemma chars_complete s rest :
  grammar.chars s rest -> exists str, json.stringBody 0 s = json.Ok str rest.
Proof. intros. by apply (chars_complete_upto (String.length s)). Qed.

Lemma with_result_Ok {A B} (f : A -> B) m b rest :
  json.with_result f m = json.Ok b rest -> exists a, m = json.Ok a rest /\ b = f a.
Proof. destruct m; [|done..]. intros [= <- <-]. eauto. Qed.

Lemma hex_cut_short_Ok {A} s (a : A) rest : json.hex_cut_short s <> json.Ok a rest.
Proof. induction s as [|c s IH]; cbn; [done|]. by destruct (json.hex c). Qed.

Lemma chars_sound_upto n s skip str rest :
  (String.length s <= n)%nat -> follow.high skip s ->
  json.stringBody skip s = json.Ok str rest -> grammar.chars s rest.
Proof.
  revert s skip str. induction n as [|n IH]; intros s skip str Hn Hskip.
  { destruct s; [done|cbn in Hn; lia]. }
  assert (Hrec : forall (f : string -> string) k t x,
             (String.length t < String.length s)%nat -> follow.high k t ->
             json.with_result f (json.stringBody k t) = json.Ok x rest ->
             grammar.chars t rest).
  { intros f k t x Ht Hk (y & Hy & _)%with_result_Ok. eapply IH; [|done..]. lia. }
  destruct s as [|c s']; [done|]. cbn [String.length] in *.
  cbn [json.stringBody]. destruct skip as [|k].
  2:{ destruct Hskip as [Hc Hk]. intros H%Hrec; [|lia|done].
      constructor; [by apply high_plain|done]. }
  destruct (Ascii.eqb_spec c json.DQ) as [->|Hq]; [intros [= <- <-]; constructor|].
  destruct (Ascii.eqb_spec c "\") as [->|Hb].
  - destruct s' as [|e s'']; [done|].
    destruct (Ascii.eqb_spec e "u") as [->|He].
    + destruct s'' as [|h1 [|h2 [|h3 [|h4 rest0]]]];
        try (intros H; by apply hex_cut_short_Ok in H).
      destruct (json.hex4 h1 h2 h3 h4) as [rr|] eqn:Hh; [|done].
      assert (is_Some (json.hex4 h1 h2 h3 h4)) as (H1 & H2 & H3 & H4)%hex4_hexdigits
        by (by eexists).
      assert (Hone : forall (f : string -> string) x,
                 json.with_result f (json.stringBody 0 rest0) = json.Ok x rest ->
                 grammar.chars
                   (String "\" (String "u" (String h1 (String h2 (String h3
                      (String h4 rest0)))))) rest).
      { intros f x H%Hrec; [|cbn; lia|done]. by constructor. }
      destruct (json.IsSurrogate rr); [|apply Hone].
      destruct rest0 as [|b [|u [|l1 [|l2 [|l3 [|l4 rest']]]]]]; try apply Hone.
      destruct (Ascii.eqb_spec b "\") as [->|]; [|apply Hone].
      destruct (Ascii.eqb_spec u "u") as [->|]; [|apply Hone].
      cbn [andb]. destruct (json.hex4 l1 l2 l3 l4) as [rr1|] eqn:Hl; [|apply Hone].
      destruct (json.DecodeRune rr rr1); [|apply Hone].
      intros H%Hrec; [|cbn; lia|done].
      assert (is_Some (json.hex4 l1 l2 l3 l4)) as (L1 & L2 & L3 & L4)%hex4_hexdigits
        by (by eexists).
      apply grammar.chars_unicode; [done..|]. by apply grammar.chars_unicode.
    + destruct (json.escape e) as [b|] eqn:Hesc; [|done].
      intros H%Hrec; [|cbn; lia|done].
      constructor; [|done]. apply escape_escape_letter. by eexists.
  - destruct (_ <? 32)%nat eqn:Hctl; [done|].
    assert (grammar.plain c = true) as Hplain.
    { apply plain_intro; [by destruct (Ascii.eqb_spec c json.DQ)|
                          by destruct (Ascii.eqb_spec c "\")|done]. }
    destruct (_ <? 128)%nat eqn:Hascii.
    { intros H%Hrec; [|lia|done]. by constructor. }
    apply Nat.ltb_ge in Hascii.
    destruct (utf8.DecodeRuneInString _) as [[] size] eqn:Hdec.
    + intros H%Hrec; [by constructor|lia|]. by eapply DecodeRune_high.
    + intros H%Hrec; [by constructor|lia|done].
Qed.

Lemma chars_sound s str rest :
  json.stringBody 0 s = json.Ok str rest -> grammar.chars s rest.
Proof. by apply (chars_sound_upto (String.length s)). Qed.

Lemma chars_length s rest : grammar.chars s rest -> (String.length rest < String.length s)%nat.
Proof. induction 1; cbn; lia. Qed.

(** ** Values *)

Lemma number_dispatch c :
  c = "-"%char \/ grammar.digit c = true ->
  grammar.space c = false /\
  Ascii.eqb c "{" = false /\ Ascii.eqb c "[" = false /\ Ascii.eqb c json.DQ = false /\
  Ascii.eqb c "t" = false /\ Ascii.eqb c "f" = false /\ Ascii.eqb c "n" = false /\
  Ascii.eqb c "]" = false /\ Ascii.eqb c "}" = false /\
  Ascii.eqb c "-" || json.isDigit c = true.
Proof. intros [->|H]; [done|]. by bytes c. Qed.

(** A value starts with a byte that is no white space and closes no
    array or object. *)
Lemma value_head fits d v t :
  grammar.value fits d v t ->
  exists c v', v = String c v' /\ grammar.space c = false /\
               Ascii.eqb c "]" = false /\ Ascii.eqb c "}" = false.
Proof.
  destruct 1 as [| | |d n rest Hn _| | | | |]; try (by do 2 eexists).
  destruct (number_head n Hn) as (c & n' & -> & Hc).
  destruct (number_dispatch c Hc) as (? & _ & _ & _ & _ & _ & _ & ? & ? & _).
  by exists c, (n' +:+ rest).
Qed.

Lemma blank_value_skipSpace fits d s v t :
  grammar.blank s v -> grammar.value fits d v t -> json.skipSpace s = v.
Proof.
  intros Hs Hv. destruct (value_head _ _ _ _ Hv) as (c & v' & -> & Hc & _).
  by rewrite (blank_skipSpace _ _ Hs), skipSpace_head.
Qed.

Lemma blank_byte_skipSpace s c rest :
  grammar.blank s (String c rest) -> grammar.space c = false ->
  json.skipSpace s = String c rest.
Proof. intros Hs Hc. by rewrite (blank_skipSpace _ _ Hs), skipSpace_head. Qed.

Lemma blank_ends_number t c rest :
  grammar.blank t (String c rest) -> follow.ends_number (String c rest) ->
  follow.ends_number t.
Proof.
  inversion 1 as [|c' s' rest' Hc' _]; subst; [done|]. intros _. cbn. by bytes c'.
Qed.

Lemma convertNumber_finite n :
  grammar.finite n -> exists f, json.convertNumber n = (VFloat64 f, None).
Proof.
  unfold grammar.finite, json.convertNumber.
  destruct (strconv.ParseFloat n) as [f []]; [by eexists|done].
Qed.

Lemma convertNumber_None n x :
  json.convertNumber n = (x, None) -> grammar.finite n.
Proof.
  unfold grammar.finite, json.convertNumber. by destruct (strconv.ParseFloat n) as [f []].
Qed.

Lemma valueInterface_shorter fuel depth s x t :
  (2 * String.length s + 1 <= fuel)%nat ->
  json.valueInterface fuel depth s = json.Ok x t ->
  (String.length t < String.length s)%nat.
Proof.
  intros Hfuel Hv. pose proof (proj1 (values_read fuel) depth s Hfuel) as H.
  by rewrite Hv in H.
Qed.

Lemma values_complete :
  (forall d v t, grammar.value grammar.finite d v t ->
     follow.ends_number t ->
     forall fuel depth s,
       grammar.blank s v -> (depth + d <= json.maxNestingDepth)%nat ->
       (2 * String.length s + 1 <= fuel)%nat ->
       exists x, json.valueInterface fuel depth s = json.Ok (x, None) t) /\
  (forall d s rest, grammar.elements grammar.finite d s rest ->
     forall fuel depth acc,
       (depth + d <= json.maxNestingDepth)%nat ->
       (2 * String.length s + 2 <= fuel)%nat ->
       exists x, json.elements fuel depth acc None s = json.Ok (x, None) rest) /\
  (forall d s rest, grammar.members grammar.finite d s rest ->
     forall fuel depth m,
       (depth + d <= json.maxNestingDepth)%nat ->
       (2 * String.length s + 2 <= fuel)%nat ->
       exists x, json.members fuel depth m None s = json.Ok (x, None) rest).
Proof.
  apply value_elements_members.
  - (* null *)
    intros d rest _ fuel depth s Hs _ Hfuel. destruct fuel as [|fuel]; [lia|].
    cbn [json.valueInterface].
    rewrite (blank_byte_skipSpace _ _ _ Hs eq_refl). cbn. by eexists.
  - intros d rest _ fuel depth s Hs _ Hfuel. destruct fuel as [|fuel]; [lia|].
    cbn [json.valueInterface].
    rewrite (blank_byte_skipSpace _ _ _ Hs eq_refl). cbn. by eexists.
  - intros d rest _ fuel depth s Hs _ Hfuel. destruct fuel as [|fuel]; [lia|].
    cbn [json.valueInterface].
    rewrite (blank_byte_skipSpace _ _ _ Hs eq_refl). cbn. by eexists.
  - (* number *)
    intros d n rest Hn Hfits Hrest fuel depth s Hs _ Hfuel.
    destruct fuel as [|fuel]; [lia|]. cbn [json.valueInterface].
    pose proof (number_complete n rest Hn Hrest) as Hnum.
    destruct (number_head n Hn) as (c & n' & -> & Hc).
    destruct (number_dispatch c Hc) as (Hsp & E1 & E2 & E3 & E4 & E5 & E6 & _ & _ & E7).
    cbn [String.append] in *. rewrite (blank_byte_skipSpace _ _ _ Hs Hsp).
    rewrite E1, E2, E3, E4, E5, E6, E7, Hnum.
    destruct (convertNumber_finite _ Hfits) as [f Hf]. cbn. rewrite Hf. by eexists.
  - (* string *)
    intros d s0 rest Hchars _ fuel depth s Hs _ Hfuel.
    destruct fuel as [|fuel]; [lia|]. cbn [json.valueInterface].
    rewrite (blank_byte_skipSpace _ _ _ Hs eq_refl).
    destruct (chars_complete _ _ Hchars) as [str Hstr].
    cbn. rewrite Hstr. by eexists.
  - (* empty array *)
    intros d s0 rest Hblank _ fuel depth s Hs Hdepth Hfuel.
    destruct fuel as [|fuel]; [lia|]. cbn [json.valueInterface].
    rewrite (blank_byte_skipSpace _ _ _ Hs eq_refl).
    cbn [Ascii.eqb Bool.eqb]. cbn [andb].
    destruct (Nat.ltb_spec depth json.maxNestingDepth); [|lia].
    rewrite (blank_byte_skipSpace _ _ _ Hblank eq_refl). cbn. by eexists.
  - (* array *)
    intros d s0 rest Helems IH _ fuel depth s Hs Hdepth Hfuel.
    destruct fuel as [|fuel]; [lia|]. cbn [json.valueInterface].
    rewrite (blank_byte_skipSpace _ _ _ Hs eq_refl).
    cbn [Ascii.eqb Bool.eqb]. cbn [andb].
    destruct (Nat.ltb_spec depth json.maxNestingDepth); [|lia].
    pose proof (blank_length _ _ Hs) as Hlen. cbn [String.length] in Hlen.
    destruct (IH fuel (S depth) []) as [x Hx]; [lia..|].
    assert (exists c s', json.skipSpace s0 = String c s' /\ Ascii.eqb c "]" = false)
      as (c & s' & -> & ->).
    { inversion Helems as [? ? v t ? Hb Hv|? ? v t ? ? Hb Hv]; subst;
        destruct (value_head _ _ _ _ Hv) as (c & v' & -> & ? & ? & _);
        rewrite (blank_byte_skipSpace _ _ _ Hb) by done; eauto. }
    rewrite Hx. cbn. by eexists.
  - (* empty object *)
    intros d s0 rest Hblank _ fuel depth s Hs Hdepth Hfuel.
    destruct fuel as [|fuel]; [lia|]. cbn [json.valueInterface].
    rewrite (blank_byte_skipSpace _ _ _ Hs eq_refl).
    cbn [Ascii.eqb Bool.eqb]. cbn [andb].
    destruct (Nat.ltb_spec depth json.maxNestingDepth); [|lia].
    rewrite (blank_byte_skipSpace _ _ _ Hblank eq_refl). cbn. by eexists.
  - (* object *)
    intros d s0 rest Hmembers IH _ fuel depth s Hs Hdepth Hfuel.
    destruct fuel as [|fuel]; [lia|]. cbn [json.valueInterface].
    rewrite (blank_byte_skipSpace _ _ _ Hs eq_refl).
    cbn [Ascii.eqb Bool.eqb]. cbn [andb].
    destruct (Nat.ltb_spec depth json.maxNestingDepth); [|lia].
    pose proof (blank_length _ _ Hs) as Hlen. cbn [String.length] in Hlen.
    destruct (IH fuel (S depth) ∅) as [x Hx]; [lia..|].
    assert (exists s', json.skipSpace s0 = String json.DQ s') as (s' & ->).
    { inversion Hmembers as [? ? k ? ? ? ? ? Hb|? ? k ? ? ? ? ? ? Hb]; subst;
        rewrite (blank_byte_skipSpace _ _ _ Hb) by done; eauto. }
    cbn [Ascii.eqb Bool.eqb json.DQ]. cbn [andb]. rewrite Hx. cbn. by eexists.
  - (* last element *)
    intros d s v t rest Hs Hv IH Ht fuel depth acc Hdepth Hfuel.
    destruct fuel as [|fuel]; [lia|]. cbn [json.elements].
    destruct (IH (blank_ends_number _ _ _ Ht ltac:(done)) fuel depth s Hs Hdepth ltac:(lia))
      as [x ->].
    cbn [json.and_then]. rewrite (blank_byte_skipSpace _ _ _ Ht eq_refl). cbn. by eexists.
  - (* more elements *)
    intros d s v t u rest Hs Hv IHv Ht Hu IHu fuel depth acc Hdepth Hfuel.
    destruct fuel as [|fuel]; [lia|]. cbn [json.elements].
    destruct (IHv (blank_ends_number _ _ _ Ht ltac:(done)) fuel depth s Hs Hdepth ltac:(lia))
      as [x Hx].
    pose proof (valueInterface_shorter fuel depth s _ t ltac:(lia) Hx) as Hlen.
    pose proof (blank_length _ _ Ht) as Hlen'. cbn [String.length] in Hlen'.
    rewrite Hx. cbn [json.and_then]. rewrite (blank_byte_skipSpace _ _ _ Ht eq_refl).
    cbn [Ascii.eqb Bool.eqb]. cbn [andb json.saveError].
    apply IHu; lia.
  - (* last member *)
    intros d s k t u v x rest Hs Hk Ht Hu Hv IH Hx fuel depth m Hdepth Hfuel.
    destruct fuel as [|fuel]; [lia|]. cbn [json.members].
    rewrite (blank_byte_skipSpace _ _ _ Hs eq_refl).
    cbn [Ascii.eqb Bool.eqb json.DQ]. cbn [andb].
    destruct (chars_complete _ _ Hk) as [key ->]. cbn [json.and_then].
    rewrite (blank_byte_skipSpace _ _ _ Ht eq_refl).
    cbn [Ascii.eqb Bool.eqb]. cbn [andb].
    pose proof (blank_length _ _ Hs) as L1. pose proof (chars_length _ _ Hk) as L2.
    pose proof (blank_length _ _ Ht) as L3. cbn [String.length] in *.
    destruct (IH (blank_ends_number _ _ _ Hx ltac:(done)) fuel depth u Hu Hdepth ltac:(lia))
      as [y ->].
    cbn [json.and_then]. rewrite (blank_byte_skipSpace _ _ _ Hx eq_refl). cbn. by eexists.
  - (* more members *)
    intros d s k t u v x y rest Hs Hk Ht Hu Hv IHv Hx Hy IHy fuel depth m Hdepth Hfuel.
    destruct fuel as [|fuel]; [lia|]. cbn [json.members].
    rewrite (blank_byte_skipSpace _ _ _ Hs eq_refl).
    cbn [Ascii.eqb Bool.eqb json.DQ]. cbn [andb].
    destruct (chars_complete _ _ Hk) as [key ->]. cbn [json.and_then].
    rewrite (blank_byte_skipSpace _ _ _ Ht eq_refl).
    cbn [Ascii.eqb Bool.eqb]. cbn [andb].
    pose proof (blank_length _ _ Hs) as L1. pose proof (chars_length _ _ Hk) as L2.
    pose proof (blank_length _ _ Ht) as L3. cbn [String.length] in *.
    destruct (IHv (blank_ends_number _ _ _ Hx ltac:(done)) fuel depth u Hu Hdepth ltac:(lia))
      as [z Hz].
    pose proof (valueInterface_shorter fuel depth u _ x ltac:(lia) Hz) as L4.
    pose proof (blank_length _ _ Hx) as L5. cbn [String.length] in L5.
    rewrite Hz. cbn [json.and_then]. rewrite (blank_byte_skipSpace _ _ _ Hx eq_refl).
    cbn [Ascii.eqb Bool.eqb]. cbn [andb json.saveError].
    apply IHy; lia.
Qed.

Lemma and_then_Ok {A B} (m : json.scan A) (k : A -> string -> json.scan B) b rest :
  json.and_then m k = json.Ok b rest ->
  exists a t, m = json.Ok a t /\ k a t = json.Ok b rest.
Proof. destruct m; [|done..]. eauto. Qed.

Lemma saveError_None saved err :
  json.saveError saved err = None -> saved = None /\ err = None.
Proof. by destruct saved. Qed.

Lemma literal_sound expected s u rest :
  json.literal expected s = json.Ok u rest -> s = expected +:+ rest.
Proof.
  revert s. induction expected as [|e expected IH]; intros s; cbn.
  - by intros [= _ <-].
  - destruct s as [|c s]; [done|]. destruct (Ascii.eqb_spec c e) as [->|]; [|done].
    intros H%IH. by rewrite H.
Qed.

Lemma values_sound fuel :
  (forall depth s x rest,
     json.valueInterface fuel depth s = json.Ok (x, None) rest ->
     exists v, grammar.blank s v /\
               grammar.value grammar.finite (json.maxNestingDepth - depth) v rest) /\
  (forall depth acc saved s x rest,
     json.elements fuel depth acc saved s = json.Ok (x, None) rest ->
     saved = None /\ grammar.elements grammar.finite (json.maxNestingDepth - depth) s rest) /\
  (forall depth m saved s x rest,
     json.members fuel depth m saved s = json.Ok (x, None) rest ->
     saved = None /\ grammar.members grammar.finite (json.maxNestingDepth - depth) s rest).
Proof.
  induction fuel as [|fuel (IHv & IHe & IHm)]; [done|].
  split; [|split].
  - intros depth s x rest. cbn [json.valueInterface].
    pose proof (skipSpace_blank s) as Hs.
    destruct (json.skipSpace s) as [|c s']; [done|].
    intros H. exists (String c s'). split; [done|]. revert H.
    destruct (Ascii.eqb_spec c "{") as [->|_].
    { destruct (Nat.ltb_spec depth json.maxNestingDepth) as [Hd|]; [|done].
      replace (json.maxNestingDepth - depth)%nat
        with (S (json.maxNestingDepth - S depth)) by lia.
      pose proof (skipSpace_blank s') as Hs'.
      destruct (json.skipSpace s') as [|c' s'']; [done|].
      destruct (Ascii.eqb_spec c' "}") as [->|_].
      - intros [= _ <-]. by apply grammar.value_empty_object.
      - intros ([m saved] & Hm & [= _ <-])%with_result_Ok.
        apply IHm in Hm as [_ Hm]. by apply grammar.value_object. }
    destruct (Ascii.eqb_spec c "[") as [->|_].
    { destruct (Nat.ltb_spec depth json.maxNestingDepth) as [Hd|]; [|done].
      replace (json.maxNestingDepth - depth)%nat
        with (S (json.maxNestingDepth - S depth)) by lia.
      pose proof (skipSpace_blank s') as Hs'.
      destruct (json.skipSpace s') as [|c' s'']; [done|].
      destruct (Ascii.eqb_spec c' "]") as [->|_].
      - intros [= _ <-]. by apply grammar.value_empty_array.
      - intros ([l saved] & Hl & [= _ <-])%with_result_Ok.
        apply IHe in Hl as [_ Hl]. by apply grammar.value_array. }
    destruct (Ascii.eqb_spec c json.DQ) as [->|_].
    { intros (str & Hstr & _)%with_result_Ok. apply chars_sound in Hstr.
      by apply grammar.value_string. }
    destruct (Ascii.eqb_spec c "t") as [->|_].
    { intros (u & ->%literal_sound & _)%with_result_Ok. apply grammar.value_true. }
    destruct (Ascii.eqb_spec c "f") as [->|_].
    { intros (u & ->%literal_sound & _)%with_result_Ok. apply grammar.value_false. }
    destruct (Ascii.eqb_spec c "n") as [->|_].
    { intros (u & ->%literal_sound & _)%with_result_Ok. apply grammar.value_null. }
    destruct (_ || _); [|done].
    intros (n & Hn & Hconv)%with_result_Ok.
    apply number_sound in Hn as [-> Hn]. symmetry in Hconv.
    apply convertNumber_None in Hconv. by apply grammar.value_number.
  - intros depth acc saved s x rest. cbn [json.elements].
    intros ([v err] & t & Hv & Hk)%and_then_Ok.
    pose proof (skipSpace_blank t) as Ht.
    destruct (json.skipSpace t) as [|c rest']; [done|].
    destruct (Ascii.eqb_spec c ",") as [->|_].
    { apply IHe in Hk as [[-> ->]%saveError_None Hk].
      apply IHv in Hv as (v' & Hs & Hv). split; [done|].
      by eapply grammar.elements_more. }
    destruct (Ascii.eqb_spec c "]") as [->|_]; [|done].
    injection Hk as _ [-> ->]%saveError_None <-.
    apply IHv in Hv as (v' & Hs & Hv). split; [done|].
    by eapply grammar.elements_last.
  - intros depth m saved s x rest. cbn [json.members].
    pose proof (skipSpace_blank s) as Hs.
    destruct (json.skipSpace s) as [|q s']; [done|].
    destruct (Ascii.eqb_spec q json.DQ) as [->|_]; [|done].
    intros (key & t & Hkey%chars_sound & Hk)%and_then_Ok.
    pose proof (skipSpace_blank t) as Ht.
    destruct (json.skipSpace t) as [|c u]; [done|].
    destruct (Ascii.eqb_spec c ":") as [->|_]; [|done].
    apply and_then_Ok in Hk as ([v err] & y & Hv & Hk).
    pose proof (skipSpace_blank y) as Hy.
    destruct (json.skipSpace y) as [|c' z]; [done|].
    destruct (Ascii.eqb_spec c' ",") as [->|_].
    { apply IHm in Hk as [[-> ->]%saveError_None Hk].
      apply IHv in Hv as (v' & Hu & Hv). split; [done|].
      by eapply grammar.members_more. }
    destruct (Ascii.eqb_spec c' "}") as [->|_]; [|done].
    injection Hk as _ [-> ->]%saveError_None <-.
    apply IHv in Hv as (v' & Hu & Hv). split; [done|].
    by eapply grammar.members_last.
Qed.

(** ** The streams that decode without error *)

Lemma valueInterface_null fuel depth buf s' :
  json.skipSpace buf = String "n" s' ->
  json.valueInterface (S fuel) depth buf =
  json.with_result (fun _ => (nil, None)) (json.literal "ull" s').
Proof. intros H. cbn [json.valueInterface]. by rewrite H. Qed.

Lemma fuel_for_S buf : json.fuel_for buf = S (2 * String.length buf).
Proof. unfold json.fuel_for. lia. Qed.

Lemma members_head d s rest :
  grammar.members grammar.finite d s rest -> exists k, json.skipSpace s = String json.DQ k.
Proof.
  inversion 1 as [? ? k ? ? ? ? ? Hb|? ? k ? ? ? ? ? ? Hb]; subst;
    rewrite (blank_byte_skipSpace _ _ _ Hb) by done; eauto.
Qed.

Lemma unmarshal_accepts (buf : string) values :
  snd (json.unmarshal buf values) = None <-> grammar.null_or_object buf.
Proof.
  unfold json.unmarshal, grammar.null_or_object. split.
  - pose proof (skipSpace_blank buf) as Hs.
    destruct (json.skipSpace buf) as [|c s'] eqn:Hbuf; [done|].
    destruct (Ascii.eqb_spec c "{") as [->|Hc].
    + pose proof (skipSpace_blank s') as Hs'.
      destruct (json.skipSpace s') as [|c' s'']; [done|].
      destruct (Ascii.eqb_spec c' "}") as [->|_].
      * intros _. exists (String "{" s'), s''. split; [done|]. right. split; [by eexists|].
        by apply (grammar.value_empty_object _ (Nat.pred json.maxNestingDepth)).
      * destruct (json.members _ _ _ _ _) as [[m saved] rest| | |] eqn:Hm; try done.
        cbn [snd]. intros ->. apply (proj2 (proj2 (values_sound _))) in Hm as [_ Hm].
        exists (String "{" s'), rest. split; [done|]. right. split; [by eexists|].
        by apply (grammar.value_object _ (Nat.pred json.maxNestingDepth)).
    + destruct (json.valueInterface _ _ _) as [[x err] rest| | |] eqn:Hv; try done.
      destruct (Ascii.eqb_spec c "n") as [->|_]; [|done]. intros _.
      exists (String "n" s'), rest. split; [done|]. left.
      rewrite fuel_for_S, (valueInterface_null _ _ _ _ Hbuf) in Hv.
      by apply with_result_Ok in Hv as (u & ->%literal_sound & _).
  - intros (s & rest & Hs & Hshape).
    pose proof (blank_length _ _ Hs) as Hlen.
    destruct Hshape as [->|[[s' ->] Hv]].
    + pose proof (blank_byte_skipSpace _ _ _ Hs eq_refl) as Hbuf.
      cbn [String.append] in Hbuf. rewrite Hbuf.
      rewrite fuel_for_S, (valueInterface_null _ _ _ _ Hbuf). reflexivity.
    + rewrite (blank_byte_skipSpace _ _ _ Hs eq_refl).
      cbn [Ascii.eqb Bool.eqb]. cbn [andb]. cbn [String.length] in Hlen.
      remember json.maxNestingDepth as limit eqn:Hlimit in Hv.
      inversion Hv; subst.
      all: try match goal with
               | H : _ +:+ _ = String _ _ |- _ =>
                   cbn [String.append] in H; try discriminate H
               end.
      * match goal with
        | Hn : grammar.number_text ?n, E : ?n +:+ _ = _ |- _ =>
            destruct (number_head n Hn) as (c & n' & -> & Hc);
            cbn [String.append] in E; injection E as -> _; by destruct Hc
        end.
      * match goal with
        | Hb : grammar.blank s' _ |- _ =>
            by rewrite (blank_byte_skipSpace _ _ _ Hb eq_refl)
        end.
      * match goal with
        | Hm : grammar.members _ _ _ _ |- _ =>
            destruct (members_head _ _ _ Hm) as [k ->];
            cbn [Ascii.eqb Bool.eqb json.DQ]; cbn [andb];
            destruct (proj2 (proj2 values_complete) _ _ _ Hm (json.fuel_for buf) 1%nat
                        match values with table m => m | nil_map => ∅ end) as [x ->];
              [lia|unfold json.fuel_for; lia|done]
        end.
Qed.

End Grammar.

(** ** Inputs that the decoder refuses *)

Lemma unmarshal_refuses (buf : string) values :
  match json.skipSpace buf with
  | "" => True
  | String c _ => Ascii.eqb c "{" || Ascii.eqb c "n" = false
  end ->
  is_Some (snd (json.unmarshal buf values)).
Proof.
  unfold json.unmarshal. destruct (json.skipSpace buf) as [|c s']; [by eexists|].
  destruct (Ascii.eqb c "{"); [done|]. destruct (Ascii.eqb c "n"); [done|].
  intros _. by destruct (json.valueInterface _ _ _) as [[? ?] ?| | |]; eexists.
Qed.

Lemma unmarshal_not_json values :
  json.unmarshal "not json" values = (values, Some SyntaxError).
Proof. reflexivity. Qed.

Lemma unmarshal_null values :
  json.unmarshal "null" values = (nil_map, None).
Proof. reflexivity. Qed.

(** ** The example documents, decoded *)

Lemma unmarshal_max_retries_document :
  json.unmarshal examples.max_retries_document (table ∅) =
  (table (<["max_retries" := VFloat64 examples.three]> (<["name" := VString "x"]> ∅)), None).
Proof. vm_compute. reflexivity. Qed.

Lemma unmarshal_flag_a_null_document :
  json.unmarshal examples.flag_a_null_document (table ∅) =
  (table (<["flag_a" := nil]> ∅), None).
Proof. vm_compute. reflexivity. Qed.

Lemma unmarshal_hyphen_key_document :
  json.unmarshal examples.hyphen_key_document (table ∅) =
  (table (<["max-retries" := VFloat64 examples.five]> ∅), None).
Proof. vm_compute. reflexivity. Qed.

Lemma unmarshal_both_keys_document :
  json.unmarshal examples.both_keys_document (table ∅) =
  (table (<["max_retries" := VFloat64 examples.three]>
            (<["max-retries" := VFloat64 examples.five]> ∅)), None).
Proof. vm_compute. reflexivity. Qed.

(** ** Running the function literals *)

Section Properties.

Context {Application Context Path FlagFields TagFields : Type}.

Implicit Types (app : Application) (context : Context) (parent : Path).
Implicit Types (flag : kong.Flag FlagFields TagFields) (w : World).

Local Abbreviation Resolver := (kong.Resolver Application Context Path FlagFields TagFields).
Local Abbreviation DefaultsResolver :=
  (@kong.DefaultsResolver Application Context Path FlagFields TagFields).
Local Abbreviation EnvarResolver :=
  (@kong.EnvarResolver Application Context Path FlagFields TagFields).
Local Abbreviation JSON_resolver values :=
  (@kong.as_Resolver Application Context Path FlagFields TagFields
     (Some (kong.JSON_func values))).
Local Abbreviation JSON := (@kong.JSON Application Context Path FlagFields TagFields).

Lemma DefaultsResolver_run context parent flag w :
  kong.call_Resolve DefaultsResolver context parent (Some flag) w =
  Returned (if decide (kong.Default (kong.Tag flag) = "") then nil
            else VString (kong.Default (kong.Tag flag)), None) w.
Proof.
  cbv [kong.call_Resolve kong.DefaultsResolver kong.as_Resolver deref mbind M_bind
       Go.bind mret M_ret Go.ret kong.Resolve kong.ResolverFunc_Resolve
       kong.DefaultsResolver_func].
  destruct (String.eqb_spec (kong.Default (kong.Tag flag)) "") as [->|Hne].
  - reflexivity.
  - by destruct (decide _).
Qed.

Lemma EnvarResolver_run context parent flag w :
  kong.call_Resolve EnvarResolver context parent (Some flag) w =
  Returned (match environ w !! kong.Env (kong.Tag flag) with
            | Some V =>
                if decide (kong.Env (kong.Tag flag) = "" \/ V = "") then nil
                else VString V
            | None => nil
            end, None) w.
Proof.
  cbv [kong.call_Resolve kong.EnvarResolver kong.as_Resolver deref mbind M_bind
       Go.bind mret M_ret Go.ret kong.Resolve kong.ResolverFunc_Resolve
       kong.EnvarResolver_func os.Getenv default from_option id].
  destruct (String.eqb_spec (kong.Env (kong.Tag flag)) "") as [He|He].
  - destruct (environ w !! _); [|done]. destruct (decide _); [done|tauto].
  - destruct (environ w !! _) as [V|]; [|done].
    destruct (String.eqb_spec V "") as [->|HV]; cbn [negb].
    + destruct (decide _); [done|]. tauto.
    + destruct (decide _); [|done]. tauto.
Qed.

Lemma JSON_func_run values context parent flag w doc :
  heap w !! values = Some doc ->
  kong.call_Resolve (JSON_resolver values) context parent (Some flag) w =
  Returned (fst (index doc (spec.hyphens_to_underscores (kong.Name flag))), None) w.
Proof.
  intros Hdoc.
  cbv [kong.call_Resolve kong.as_Resolver deref mbind M_bind
       Go.bind mret M_ret Go.ret kong.Resolve kong.ResolverFunc_Resolve
       kong.JSON_func load].
  rewrite Hdoc, Replace_hyphens.
  unfold index. destruct doc as [|m]; [done|]. by destruct (m !! _).
Qed.

(** C1: the defaults resolver returns no value (nil) and a nil error
    for a flag whose [Tag.Default] is empty, and for a non-empty default
    [D] exactly the string [D] and a nil error, whatever the context,
    the parent path and the world it runs in, which it leaves as it
    found it. *)
Theorem defaults_resolver_returns_default context parent flag w :
  kong.call_Resolve DefaultsResolver context parent (Some flag) w =
  Returned (match kong.Default (kong.Tag flag) with
            | "" => nil
            | D => VString D
            end, None) w.
Proof.
  rewrite DefaultsResolver_run.
  destruct (kong.Default (kong.Tag flag)); by destruct (decide _).
Qed.

(** C2: the environment resolver returns no value when [Tag.Env] is
    empty; when [Tag.Env] names a variable set to a non-empty string [V]
    it returns [V]; when that variable is unset or set to the empty
    string it returns no value.  The error is nil every time. *)
Theorem envar_resolver_returns_variable context parent flag w :
  let run := kong.call_Resolve EnvarResolver context parent (Some flag) w in
  (kong.Env (kong.Tag flag) = "" -> run = Returned (nil, None) w) /\
  (forall V, kong.Env (kong.Tag flag) <> "" ->
             environ w !! kong.Env (kong.Tag flag) = Some V -> V <> "" ->
             run = Returned (VString V, None) w) /\
  (environ w !! kong.Env (kong.Tag flag) = None -> run = Returned (nil, None) w) /\
  (environ w !! kong.Env (kong.Tag flag) = Some "" -> run = Returned (nil, None) w).
Proof.
  cbv zeta. rewrite EnvarResolver_run. repeat split.
  - intros He. destruct (environ w !! _); [|done]. destruct (decide _); [done|tauto].
  - intros V He -> HV. destruct (decide _); [tauto|done].
  - by intros ->.
  - intros ->. destruct (decide _); [done|tauto].
Qed.

(** C8: the adapter's [Validate] returns a nil error for every
    application, and its [Resolve] is the wrapped function: on every
    argument triple it does what the function does and returns the pair
    the function returns.  The same holds when the methods are called
    through the [Resolver] interface.  The nil adapter has the methods
    too; its [Resolve] panics. *)
Theorem ResolverFunc_delegates (r : kong.ResolverFunc Context Path FlagFields TagFields)
    (fn : kong.func Context Path FlagFields TagFields)
    app context parent (flag : option (kong.Flag FlagFields TagFields)) w :
  kong.ResolverFunc_Validate r app w = Returned None w /\
  kong.call_Validate (kong.as_Resolver r) app w = Returned None w /\
  kong.ResolverFunc_Resolve (Some fn) context parent flag = fn context parent flag /\
  kong.call_Resolve (Application := Application) (kong.as_Resolver (Some fn))
                    context parent flag w = fn context parent flag w /\
  kong.ResolverFunc_Resolve (FlagFields := FlagFields) (TagFields := TagFields)
                            None context parent flag w = Panicked nil_dereference.
Proof. repeat split. Qed.

Lemma JSON_run (r : json.Reader) w :
  JSON r w =
  Returned (match snd (json.unmarshal r (table ∅)) with
            | Some e => (None, Some e)
            | None => (JSON_resolver (length (heap w)), None)
            end)
           {| environ := environ w;
              heap := heap w ++ [fst (json.unmarshal r (table ∅))] |}.
Proof.
  cbv [kong.JSON json.Decode declare load store mbind M_bind Go.bind mret M_ret Go.ret
       heap environ].
  rewrite list_lookup_middle by reflexivity.
  destruct (json.unmarshal r (table ∅)) as [values' err]. cbn [fst snd].
  rewrite list_lookup_middle by reflexivity.
  rewrite insert_app_r_alt by reflexivity. rewrite Nat.sub_diag. cbn [insert list_insert].
  by destruct err.
Qed.

(** C6: for every flag, context and parent path and in every world,
    [Resolve] of the defaults resolver and of the environment resolver
    returns with a nil error, and [Resolve] of a JSON resolver never
    returns an error that is not nil: it returns with a nil error
    wherever its captured document exists, as it does for every resolver
    that [JSON] returns, in the world [JSON] leaves.  A source that has
    nothing for the flag (no default, no variable or an empty one, no
    key) says so with a nil value. *)
Theorem builtin_resolve_error_is_nil context parent flag w :
  (exists v,
     kong.call_Resolve DefaultsResolver context parent (Some flag) w
       = Returned (v, None) w /\
     (kong.Default (kong.Tag flag) = "" -> v = nil)) /\
  (exists v,
     kong.call_Resolve EnvarResolver context parent (Some flag) w
       = Returned (v, None) w /\
     (kong.Env (kong.Tag flag) = "" \/
      environ w !! kong.Env (kong.Tag flag) = None \/
      environ w !! kong.Env (kong.Tag flag) = Some "" -> v = nil)) /\
  (forall values,
     (forall v e w',
        kong.call_Resolve (JSON_resolver values) context parent (Some flag) w
          = Returned (v, e) w' -> e = None) /\
     (forall doc,
        heap w !! values = Some doc ->
        exists v,
          kong.call_Resolve (JSON_resolver values) context parent (Some flag) w
            = Returned (v, None) w /\
          (snd (index doc (strings.Replace (kong.Name flag) "-" "_" (-1))) = false ->
           v = nil))) /\
  (forall (r : json.Reader) w0 methods err,
     JSON r w0 = Returned (Some methods, err) w ->
     exists v,
       kong.call_Resolve (Some methods) context parent (Some flag) w
         = Returned (v, None) w).
Proof.
  split; [|split; [|split]].
  - eexists. split; [apply DefaultsResolver_run|]. intros Habsent.
    by destruct (decide _).
  - eexists. split; [apply EnvarResolver_run|]. intros Habsent.
    destruct Habsent as [He|[->| ->]]; [|done|].
    + destruct (environ w !! _); [|done]. destruct (decide _); [done|tauto].
    + destruct (decide _); [done|tauto].
  - intros values. split.
    + intros v e w'. destruct (heap w !! values) as [doc|] eqn:Hdoc.
      * rewrite (JSON_func_run _ _ _ _ _ _ Hdoc). by intros [= _ <- _].
      * cbv [kong.call_Resolve kong.as_Resolver deref mbind M_bind Go.bind mret M_ret
             Go.ret kong.Resolve kong.ResolverFunc_Resolve kong.JSON_func load].
        by rewrite Hdoc.
    + intros doc Hdoc. eexists. split; [by apply JSON_func_run|]. intros Habsent.
      rewrite Replace_hyphens in Habsent. unfold index in *.
      destruct doc as [|m]; [done|]. by destruct (m !! _).
  - intros r w0 methods err. rewrite JSON_run.
    destruct (snd (json.unmarshal r (table ∅))); [done|].
    intros [= <- _ <-]. eexists. apply JSON_func_run. cbn [heap].
    by apply list_lookup_middle.
Qed.

(** C7: [Resolve] of each built-in resolver changes nothing: when a
    call returns, the world (the environment and the captured document)
    is the one it started from, and the same call made again returns the
    same result. *)
Theorem builtin_resolve_twice context parent
    (flag : option (kong.Flag FlagFields TagFields)) w values :
  let repeats (r : Resolver) :=
    match kong.call_Resolve r context parent flag w with
    | Returned result w' =>
        w' = w /\ kong.call_Resolve r context parent flag w' = Returned result w'
    | Panicked _ => True
    end in
  repeats DefaultsResolver /\ repeats EnvarResolver /\ repeats (JSON_resolver values).
Proof.
  cbv zeta. destruct flag as [flag|]; [|done].
  rewrite DefaultsResolver_run, EnvarResolver_run.
  split; [|split].
  - split; [done|]. apply DefaultsResolver_run.
  - split; [done|]. apply EnvarResolver_run.
  - destruct (heap w !! values) as [doc|] eqn:Hdoc.
    + rewrite (JSON_func_run _ _ _ _ _ doc) by done.
      split; [done|]. by apply JSON_func_run.
    + cbv [kong.call_Resolve kong.as_Resolver deref mbind M_bind Go.bind mret M_ret
           Go.ret kong.Resolve kong.ResolverFunc_Resolve kong.JSON_func load].
      by rewrite Hdoc.
Qed.

(** C10: what each built-in resolver returns depends on a part of its
    input only: the defaults resolver on [Tag.Default], the environment
    resolver on [Tag.Env] and the environment, the JSON resolver on
    [Name] and the captured document.  Two calls that agree on that part
    return the same, whatever the contexts, the parent paths, the other
    fields of the flags and the rest of the world. *)
Theorem builtin_resolve_depends_on context1 context2 parent1 parent2 flag1 flag2
    (w1 w2 : World) values1 values2 :
  (kong.Default (kong.Tag flag1) = kong.Default (kong.Tag flag2) ->
   returned (kong.call_Resolve DefaultsResolver context1 parent1 (Some flag1) w1) =
   returned (kong.call_Resolve DefaultsResolver context2 parent2 (Some flag2) w2)) /\
  (kong.Env (kong.Tag flag1) = kong.Env (kong.Tag flag2) -> environ w1 = environ w2 ->
   returned (kong.call_Resolve EnvarResolver context1 parent1 (Some flag1) w1) =
   returned (kong.call_Resolve EnvarResolver context2 parent2 (Some flag2) w2)) /\
  (kong.Name flag1 = kong.Name flag2 -> heap w1 !! values1 = heap w2 !! values2 ->
   returned (kong.call_Resolve (JSON_resolver values1) context1 parent1 (Some flag1) w1) =
   returned (kong.call_Resolve (JSON_resolver values2) context2 parent2 (Some flag2) w2)).
Proof.
  split; [|split].
  - intros HD. rewrite !DefaultsResolver_run, HD. reflexivity.
  - intros HE Henv. rewrite !EnvarResolver_run, HE, Henv. reflexivity.
  - intros HN Hdoc. destruct (heap w2 !! values2) as [doc|] eqn:H2.
    + rewrite (JSON_func_run _ _ _ _ _ doc), (JSON_func_run _ _ _ _ _ doc), HN by done.
      reflexivity.
    + cbv [kong.call_Resolve kong.as_Resolver deref mbind M_bind Go.bind mret M_ret
           Go.ret kong.Resolve kong.ResolverFunc_Resolve kong.JSON_func load].
      by rewrite Hdoc, H2.
Qed.

Lemma JSON_then_Resolve_run (r : json.Reader) m context parent flag w :
  json.unmarshal r (table ∅) = (m, None) ->
  examples.JSON_then_Resolve (Application := Application) r context parent (Some flag) w =
  Returned (fst (index m (spec.hyphens_to_underscores (kong.Name flag))), None)
           {| environ := environ w; heap := heap w ++ [m] |}.
Proof.
  intros Hr. cbv [examples.JSON_then_Resolve mbind M_bind Go.bind].
  rewrite JSON_run, Hr. cbn [fst snd].
  apply JSON_func_run. cbn [heap]. by apply list_lookup_middle.
Qed.

(** C3: the JSON resolver looks the flag up under its name with every
    hyphen replaced by an underscore, and returns the decoded value
    stored under that key as it is, or no value when the key is absent.
    Built from the document with keys max_retries (3) and name (x), it
    returns 3 for the flag max-retries and no value for the flag
    missing-key. *)
Theorem JSON_resolver_lookup context parent w :
  (forall values m flag,
     heap w !! values = Some (table m) ->
     kong.call_Resolve (JSON_resolver values) context parent (Some flag) w =
     Returned (match m !! spec.hyphens_to_underscores (kong.Name flag) with
               | Some raw => raw
               | None => nil
               end, None) w) /\
  (forall (tag : kong.Tag_struct TagFields) (others : FlagFields),
     returned (examples.JSON_then_Resolve (Application := Application)
                 examples.max_retries_document context parent
                 (Some (kong.mkFlag "max-retries" tag others)) w) =
     Some (VFloat64 examples.three, None)) /\
  (forall (tag : kong.Tag_struct TagFields) (others : FlagFields),
     returned (examples.JSON_then_Resolve (Application := Application)
                 examples.max_retries_document context parent
                 (Some (kong.mkFlag "missing-key" tag others)) w) =
     Some (nil, None)).
Proof.
  split; [|split].
  - intros values m flag Hdoc. rewrite (JSON_func_run _ _ _ _ _ _ Hdoc).
    cbn [index]. by destruct (m !! _).
  - intros tag others.
    by rewrite (JSON_then_Resolve_run _ _ _ _ _ _ unmarshal_max_retries_document).
  - intros tag others.
    by rewrite (JSON_then_Resolve_run _ _ _ _ _ _ unmarshal_max_retries_document).
Qed.

(** C9: the key the JSON resolver looks up has no hyphen, so an entry
    of the document whose key has one is never returned: the document
    without that entry gives every flag the same result.  The flag
    max-retries gets no value from a document whose only key is
    max-retries, and gets the value stored under max_retries when both
    keys are there. *)
Theorem JSON_resolver_skips_hyphen_keys context parent w :
  (forall name, "-"%char ∉ spec.bytes (strings.Replace name "-" "_" (-1))) /\
  (forall values m k flag w',
     "-"%char ∈ spec.bytes k ->
     heap w !! values = Some (table m) ->
     heap w' !! values = Some (table (delete k m)) ->
     returned (kong.call_Resolve (JSON_resolver values) context parent (Some flag) w) =
     returned (kong.call_Resolve (JSON_resolver values) context parent (Some flag) w')) /\
  (forall (tag : kong.Tag_struct TagFields) (others : FlagFields),
     returned (examples.JSON_then_Resolve (Application := Application)
                 examples.hyphen_key_document context parent
                 (Some (kong.mkFlag "max-retries" tag others)) w) =
     Some (nil, None)) /\
  (forall (tag : kong.Tag_struct TagFields) (others : FlagFields),
     returned (examples.JSON_then_Resolve (Application := Application)
                 examples.both_keys_document context parent
                 (Some (kong.mkFlag "max-retries" tag others)) w) =
     Some (VFloat64 examples.three, None)).
Proof.
  split; [|split; [|split]].
  - intros name. rewrite Replace_hyphens. apply hyphens_to_underscores_no_hyphen.
  - intros values m k flag w' Hk Hw Hw'.
    rewrite (JSON_func_run _ _ _ _ _ _ Hw), (JSON_func_run _ _ _ _ _ _ Hw').
    cbn [index returned]. rewrite lookup_delete_ne; [done|].
    intros ->. by apply (hyphens_to_underscores_no_hyphen (kong.Name flag)).
  - intros tag others.
    by rewrite (JSON_then_Resolve_run _ _ _ _ _ _ unmarshal_hyphen_key_document).
  - intros tag others.
    by rewrite (JSON_then_Resolve_run _ _ _ _ _ _ unmarshal_both_keys_document).
Qed.

(** C4, as the code has it: a key that holds JSON null is decoded to
    the nil value, so resolving its flag returns nil with a nil error,
    which is also what resolving a flag that the document does not have
    returns.  The document whose key flag_a holds null gives the flag
    flag-a and the flag flag-b the same result. *)
Theorem JSON_null_is_no_value context parent w :
  (forall values m flag_a flag_b,
     heap w !! values = Some (table m) ->
     m !! spec.hyphens_to_underscores (kong.Name flag_a) = Some nil ->
     m !! spec.hyphens_to_underscores (kong.Name flag_b) = None ->
     kong.call_Resolve (JSON_resolver values) context parent (Some flag_a) w
       = Returned (nil, None) w /\
     kong.call_Resolve (JSON_resolver values) context parent (Some flag_b) w
       = Returned (nil, None) w) /\
  json.unmarshal examples.flag_a_null_document (table ∅)
    = (table (<["flag_a" := nil]> ∅), None) /\
  (forall (tag : kong.Tag_struct TagFields) (others : FlagFields),
     returned (examples.JSON_then_Resolve (Application := Application)
                 examples.flag_a_null_document context parent
                 (Some (kong.mkFlag "flag-a" tag others)) w) =
     Some (nil, None)) /\
  (forall (tag : kong.Tag_struct TagFields) (others : FlagFields),
     returned (examples.JSON_then_Resolve (Application := Application)
                 examples.flag_a_null_document context parent
                 (Some (kong.mkFlag "flag-b" tag others)) w) =
     Some (nil, None)).
Proof.
  split; [|split; [|split]].
  - intros values m flag_a flag_b Hdoc Ha Hb.
    rewrite !(JSON_func_run _ _ _ _ _ _ Hdoc). cbn [index]. by rewrite Ha, Hb.
  - exact unmarshal_flag_a_null_document.
  - intros tag others.
    by rewrite (JSON_then_Resolve_run _ _ _ _ _ _ unmarshal_flag_a_null_document).
  - intros tag others.
    by rewrite (JSON_then_Resolve_run _ _ _ _ _ _ unmarshal_flag_a_null_document).
Qed.

(** C5, as the code has it: the constructor never panics, and what it
    returns follows the decoder: the decoder's error with a nil resolver
    when decoding the first value of the stream into the map fails, a
    resolver with a nil error when it succeeds.  It succeeds exactly on
    the streams that begin, after white space, with the literal null or
    with a JSON object that is nested at most 10000 deep and whose
    numbers are all read without a range error (as [strconv.ParseFloat]
    reads them, they round to a finite float64); what follows that first
    value is not looked at.  So it fails on the text not json, and it succeeds
    on a top-level null, for which the resolver holds no key. *)
Theorem JSON_constructor (r : json.Reader) w :
  (exists w',
     JSON r w =
     Returned (match snd (json.unmarshal r (table ∅)) with
               | Some e => (None, Some e)
               | None => (JSON_resolver (length (heap w)), None)
               end) w') /\
  (grammar.null_or_object r ->
   exists w', JSON r w = Returned (JSON_resolver (length (heap w)), None) w') /\
  (~ grammar.null_or_object r ->
   exists e w', JSON r w = Returned (None, Some e) w') /\
  (exists w', JSON "not json" w = Returned (None, Some SyntaxError) w') /\
  JSON "null" w =
    Returned (JSON_resolver (length (heap w)), None)
             {| environ := environ w; heap := heap w ++ [nil_map] |}.
Proof.
  split; [|split; [|split; [|split]]].
  - rewrite JSON_run. by eexists.
  - intros Hr%(unmarshal_accepts r (table ∅)). rewrite JSON_run, Hr. by eexists.
  - intros Hr. rewrite JSON_run.
    destruct (snd (json.unmarshal r (table ∅))) as [e|] eqn:He; [by do 2 eexists|].
    by apply unmarshal_accepts in He.
  - rewrite JSON_run, unmarshal_not_json. by eexists.
  - by rewrite JSON_run, unmarshal_null.
Qed.

End Properties.

(** * The theorems at work on concrete inputs *)

Lemma envar_resolver_returns_variable_witness :
  kong.call_Resolve (Application := unit) kong.EnvarResolver tt tt
    (Some (examples.flag "foo" "" "")) examples.sample_world
    = Returned (nil, None) examples.sample_world /\
  kong.call_Resolve (Application := unit) kong.EnvarResolver tt tt
    (Some (examples.flag "foo" "" "FOO")) examples.sample_world
    = Returned (VString "bar", None) examples.sample_world /\
  kong.call_Resolve (Application := unit) kong.EnvarResolver tt tt
    (Some (examples.flag "foo" "" "UNSET")) examples.sample_world
    = Returned (nil, None) examples.sample_world /\
  kong.call_Resolve (Application := unit) kong.EnvarResolver tt tt
    (Some (examples.flag "foo" "" "EMPTY")) examples.sample_world
    = Returned (nil, None) examples.sample_world.
Proof.
  split; [|split; [|split]].
  - apply (proj1 (envar_resolver_returns_variable (Application := unit) tt tt
             (examples.flag "foo" "" "") examples.sample_world)).
    reflexivity.
  - apply (proj1 (proj2 (envar_resolver_returns_variable (Application := unit) tt tt
             (examples.flag "foo" "" "FOO") examples.sample_world)) "bar").
    + discriminate.
    + vm_compute. reflexivity.
    + discriminate.
  - apply (proj1 (proj2 (proj2 (envar_resolver_returns_variable (Application := unit) tt tt
             (examples.flag "foo" "" "UNSET") examples.sample_world)))).
    vm_compute. reflexivity.
  - apply (proj2 (proj2 (proj2 (envar_resolver_returns_variable (Application := unit) tt tt
             (examples.flag "foo" "" "EMPTY") examples.sample_world)))).
    vm_compute. reflexivity.
Defined.

Lemma builtin_resolve_error_is_nil_witness :
  (exists v,
     kong.call_Resolve (Application := unit) kong.DefaultsResolver tt tt
       (Some (examples.flag "missing-key" "" "UNSET")) examples.empty_world
     = Returned (v, None) examples.empty_world /\ v = nil) /\
  (exists v,
     kong.call_Resolve (Application := unit) kong.EnvarResolver tt tt
       (Some (examples.flag "missing-key" "" "UNSET")) examples.empty_world
     = Returned (v, None) examples.empty_world /\ v = nil) /\
  (heap examples.sample_world !! 0%nat = Some (table examples.sample_document) /\
   exists v,
     kong.call_Resolve (Application := unit)
       (kong.as_Resolver (Some (kong.JSON_func 0))) tt tt
       (Some (examples.flag "missing-key" "" "UNSET")) examples.sample_world
     = Returned (v, None) examples.sample_world /\ v = nil) /\
  (exists v,
     kong.call_Resolve (Application := unit)
       (kong.as_Resolver (Some (kong.JSON_func 0))) tt tt
       (Some (examples.flag "max-retries" "" ""))
       {| environ := ∅; heap := [table (<["flag_a" := nil]> ∅)] |}
     = Returned (v, None) {| environ := ∅; heap := [table (<["flag_a" := nil]> ∅)] |}).
Proof.
  split; [|split; [|split]].
  - destruct (proj1 (builtin_resolve_error_is_nil (Application := unit) tt tt
                       (examples.flag "missing-key" "" "UNSET") examples.empty_world))
      as (v & Hrun & Hnil).
    exists v. split; [exact Hrun|]. apply Hnil. reflexivity.
  - destruct (proj1 (proj2 (builtin_resolve_error_is_nil (Application := unit) tt tt
                              (examples.flag "missing-key" "" "UNSET")
                              examples.empty_world)))
      as (v & Hrun & Hnil).
    exists v. split; [exact Hrun|]. apply Hnil. right. left. vm_compute. reflexivity.
  - split; [reflexivity|].
    destruct (proj2 (proj1 (proj2 (proj2
                (builtin_resolve_error_is_nil (Application := unit) tt tt
                   (examples.flag "missing-key" "" "UNSET") examples.sample_world)))
                0%nat) (table examples.sample_document) eq_refl)
      as (v & Hrun & Hnil).
    exists v. split; [exact Hrun|]. apply Hnil. vm_compute. reflexivity.
  - apply (proj2 (proj2 (proj2
             (builtin_resolve_error_is_nil (Application := unit) tt tt
                (examples.flag "max-retries" "" "")
                {| environ := ∅; heap := [table (<["flag_a" := nil]> ∅)] |})))
             examples.flag_a_null_document examples.empty_world _ None).
    vm_compute. reflexivity.
Defined.

Lemma builtin_resolve_depends_on_witness :
  returned (kong.call_Resolve (Application := unit) kong.DefaultsResolver tt tt
              (Some (examples.flag "a" "8080" "A")) examples.empty_world) =
  returned (kong.call_Resolve (Application := unit) kong.DefaultsResolver tt tt
              (Some (examples.flag "b" "8080" "B")) examples.sample_world) /\
  returned (kong.call_Resolve (Application := unit) kong.EnvarResolver tt tt
              (Some (examples.flag "a" "1" "FOO")) examples.sample_world) =
  returned (kong.call_Resolve (Application := unit) kong.EnvarResolver tt tt
              (Some (examples.flag "b" "2" "FOO"))
              {| environ := environ examples.sample_world; heap := [] |}) /\
  returned (kong.call_Resolve (Application := unit)
              (kong.as_Resolver (Some (kong.JSON_func 0))) tt tt
              (Some (examples.flag "max-retries" "1" "A")) examples.sample_world) =
  returned (kong.call_Resolve (Application := unit)
              (kong.as_Resolver (Some (kong.JSON_func 1))) tt tt
              (Some (examples.flag "max-retries" "2" "B"))
              {| environ := ∅; heap := nil_map :: heap examples.sample_world |}).
Proof.
  split; [|split].
  - apply (proj1 (builtin_resolve_depends_on (Application := unit) tt tt tt tt
             (examples.flag "a" "8080" "A") (examples.flag "b" "8080" "B")
             examples.empty_world examples.sample_world 0 0)).
    reflexivity.
  - apply (proj1 (proj2 (builtin_resolve_depends_on (Application := unit) tt tt tt tt
             (examples.flag "a" "1" "FOO") (examples.flag "b" "2" "FOO")
             examples.sample_world
             {| environ := environ examples.sample_world; heap := [] |} 0 0))).
    + reflexivity.
    + reflexivity.
  - apply (proj2 (proj2 (builtin_resolve_depends_on (Application := unit) tt tt tt tt
             (examples.flag "max-retries" "1" "A") (examples.flag "max-retries" "2" "B")
             examples.sample_world
             {| environ := ∅; heap := nil_map :: heap examples.sample_world |} 0 1))).
    + reflexivity.
    + reflexivity.
Defined.

Lemma JSON_resolver_lookup_witness :
  kong.call_Resolve (Application := unit)
    (kong.as_Resolver (Some (kong.JSON_func 0))) tt tt
    (Some (examples.flag "max-retries" "" "")) examples.sample_world
  = Returned (VFloat64 examples.three, None) examples.sample_world.
Proof.
  apply (proj1 (JSON_resolver_lookup (Application := unit) (FlagFields := unit)
                  (TagFields := unit) tt tt examples.sample_world)
           0%nat examples.sample_document (examples.flag "max-retries" "" "")).
  reflexivity.
Defined.

Lemma JSON_resolver_skips_hyphen_keys_witness :
  returned (kong.call_Resolve (Application := unit)
              (kong.as_Resolver (Some (kong.JSON_func 0))) tt tt
              (Some (examples.flag "max-retries" "" "")) examples.sample_world) =
  returned (kong.call_Resolve (Application := unit)
              (kong.as_Resolver (Some (kong.JSON_func 0))) tt tt
              (Some (examples.flag "max-retries" "" ""))
              {| environ := ∅;
                 heap := [table (<["max_retries" := VFloat64 examples.three]>
                                   (<["flag_a" := nil]> ∅))] |}).
Proof.
  apply (proj1 (proj2 (JSON_resolver_skips_hyphen_keys (Application := unit)
                         (FlagFields := unit) (TagFields := unit)
                         tt tt examples.sample_world))
           0%nat examples.sample_document "max-retries"
           (examples.flag "max-retries" "" "")).
  - vm_compute. apply list_elem_of_In. vm_compute. tauto.
  - reflexivity.
  - vm_compute. reflexivity.
Defined.

Lemma JSON_null_is_no_value_witness :
  kong.call_Resolve (Application := unit)
    (kong.as_Resolver (Some (kong.JSON_func 0))) tt tt
    (Some (examples.flag "flag-a" "" "")) examples.sample_world
  = Returned (nil, None) examples.sample_world /\
  kong.call_Resolve (Application := unit)
    (kong.as_Resolver (Some (kong.JSON_func 0))) tt tt
    (Some (examples.flag "flag-b" "" "")) examples.sample_world
  = Returned (nil, None) examples.sample_world.
Proof.
  apply (proj1 (JSON_null_is_no_value (Application := unit) (FlagFields := unit)
                  (TagFields := unit) tt tt examples.sample_world)
           0%nat examples.sample_document
           (examples.flag "flag-a" "" "") (examples.flag "flag-b" "" "")).
  - reflexivity.
  - vm_compute. reflexivity.
  - vm_compute. reflexivity.
Defined.

Lemma JSON_constructor_witness :
  grammar.null_or_object examples.max_retries_document /\
  (exists w',
     kong.JSON (Application := unit) (Context := unit) (Path := unit)
               (FlagFields := unit) (TagFields := unit)
               examples.max_retries_document examples.empty_world
     = Returned (kong.as_Resolver (Some (kong.JSON_func 0)), None) w') /\
  ~ grammar.null_or_object "[1, 2]" /\
  (exists e w',
     kong.JSON (Application := unit) (Context := unit) (Path := unit)
               (FlagFields := unit) (TagFields := unit) "[1, 2]" examples.empty_world
     = Returned (None, Some e) w').
Proof.
  assert (grammar.null_or_object examples.max_retries_document) as Hyes.
  { apply (unmarshal_accepts _ (table ∅)). vm_compute. reflexivity. }
  assert (~ grammar.null_or_object "[1, 2]") as Hno.
  { intros H. apply (unmarshal_accepts _ (table ∅)) in H. vm_compute in H. discriminate H. }
  split; [exact Hyes|]. split; [|split; [exact Hno|]].
  - apply (proj1 (proj2 (JSON_constructor (Application := unit) (Context := unit)
                           (Path := unit) (FlagFields := unit) (TagFields := unit)
                           examples.max_retries_document examples.empty_world))).
    exact Hyes.
  - apply (proj1 (proj2 (proj2 (JSON_constructor (Application := unit) (Context := unit)
                                  (Path := unit) (FlagFields := unit) (TagFields := unit)
                                  "[1, 2]" examples.empty_world)))).
    exact Hno.
Defined.

(** * Where the code departs from the claims *)

(** Against C4 as stated: built from the document whose key flag_a
    holds null, the resolver returns the same for the flag flag-a, whose
    key is there, as for the flag flag-b, whose key is not: nil and a
    nil error both times. *)
Lemma explicit_null_counterexample :
  returned (examples.JSON_then_Resolve (Application := unit)
              examples.flag_a_null_document tt tt
              (Some (examples.flag "flag-a" "" "")) examples.empty_world)
  = Some (nil, None) /\
  returned (examples.JSON_then_Resolve (Application := unit)
              examples.flag_a_null_document tt tt
              (Some (examples.flag "flag-b" "" "")) examples.empty_world)
  = Some (nil, None).
Proof. split; vm_compute; reflexivity. Qed.

(** Against C5 as stated: the stream null is no JSON object, and the
    constructor returns a resolver and a nil error for it; the stream
    with the key a and the number 1e999 is a well-formed JSON object,
    and the constructor returns no resolver and the decoder's error for
    it. *)
Lemma JSON_constructor_counterexample :
  (~ grammar.whole_object "null" /\
   returned (kong.JSON (Application := unit) (Context := unit) (Path := unit)
               (FlagFields := unit) (TagFields := unit) "null" examples.empty_world)
   = Some (kong.as_Resolver (Some (kong.JSON_func 0)), None)) /\
  (grammar.whole_object examples.huge_number_document /\
   returned (kong.JSON (Application := unit) (Context := unit) (Path := unit)
               (FlagFields := unit) (TagFields := unit)
               examples.huge_number_document examples.empty_world)
   = Some (None, Some (UnmarshalTypeError "number 1e999"))).
Proof.
  split; split.
  - intros (d & s & rest & Hblank & _). inversion Hblank; discriminate.
  - vm_compute. reflexivity.
  - exists 1%nat, (examples.quoted "a" +:+ ": 1e999}"), "".
    split; [vm_compute; constructor|]. split; [|constructor].
    apply grammar.value_object.
    eapply grammar.members_last with (k := "a" +:+ String json.DQ ": 1e999}")
                                     (t := ": 1e999}") (u := " 1e999}")
                                     (v := "1e999}") (x := "}").
    + vm_compute. constructor.
    + apply grammar.chars_plain; [reflexivity|]. apply grammar.chars_close.
    + constructor.
    + apply grammar.blank_more; [reflexivity|]. constructor.
    + apply (grammar.value_number _ 0 "1e999" "}"); [|exact I].
      apply (grammar.number_positive "1" "" "e999").
      * by apply grammar.int_digit.
      * constructor.
      * apply grammar.exp_unsigned; [by left|].
        apply grammar.digits_more; [reflexivity|].
        apply grammar.digits_more; [reflexivity|].
        by apply grammar.digits_one.
    + constructor.
  - vm_compute. reflexivity.
Qed.

(** * Further properties of resolver.go *)

Section Further.

Context {Application Context Path FlagFields TagFields : Type}.

Implicit Types (app : Application) (context : Context) (parent : Path).
Implicit Types (flag : kong.Flag FlagFields TagFields) (w : World).

Local Abbreviation Resolver := (kong.Resolver Application Context Path FlagFields TagFields).
Local Abbreviation DefaultsResolver :=
  (@kong.DefaultsResolver Application Context Path FlagFields TagFields).
Local Abbreviation EnvarResolver :=
  (@kong.EnvarResolver Application Context Path FlagFields TagFields).
Local Abbreviation JSON_resolver values :=
  (@kong.as_Resolver Application Context Path FlagFields TagFields
     (Some (kong.JSON_func values))).
Local Abbreviation JSON := (@kong.JSON Application Context Path FlagFields TagFields).

Lemma hyphens_to_underscores_twice s :
  spec.hyphens_to_underscores (spec.hyphens_to_underscores s) =
  spec.hyphens_to_underscores s.
Proof.
  induction s as [|c s IH]; [done|]. cbn. rewrite IH.
  destruct (Ascii.eqb_spec c "-") as [->|Hc]; [done|].
  by destruct (Ascii.eqb_spec c "-").
Qed.

Lemma hyphens_to_underscores_plain s :
  "-"%char ∉ spec.bytes s -> spec.hyphens_to_underscores s = s.
Proof.
  induction s as [|c s IH]; [done|]. cbn. rewrite not_elem_of_cons.
  intros [Hc Hs]. rewrite IH by done. by destruct (Ascii.eqb_spec c "-").
Qed.

Lemma hyphens_to_underscores_length s :
  String.length (spec.hyphens_to_underscores s) = String.length s.
Proof. induction s as [|c s IH]; [done|]. cbn. by rewrite IH. Qed.

Lemma JSON_func_run_any values context parent flag w :
  kong.call_Resolve (JSON_resolver values) context parent (Some flag) w =
  match heap w !! values with
  | Some doc =>
      Returned (fst (index doc (spec.hyphens_to_underscores (kong.Name flag))), None) w
  | None => Panicked (unallocated values)
  end.
Proof.
  destruct (heap w !! values) as [doc|] eqn:Hdoc; [by apply JSON_func_run|].
  cbv [kong.call_Resolve kong.as_Resolver deref mbind M_bind Go.bind mret M_ret
       Go.ret kong.Resolve kong.ResolverFunc_Resolve kong.JSON_func load].
  by rewrite Hdoc.
Qed.

(** X1: a nil flag makes [Resolve] of each of the three built-in
    resolvers panic with a nil pointer dereference, whatever the
    context, the parent path and the world; the JSON resolver panics
    before it looks at its document. *)
Theorem builtin_resolve_nil_flag context parent w values :
  kong.call_Resolve DefaultsResolver context parent None w = Panicked nil_dereference /\
  kong.call_Resolve EnvarResolver context parent None w = Panicked nil_dereference /\
  kong.call_Resolve (JSON_resolver values) context parent None w
    = Panicked nil_dereference.
Proof. repeat split. Qed.

(** X2: the defaults resolver and the environment resolver return nil
    or a string that is not empty, and nothing else: the empty string is
    never a resolved value. *)
Theorem string_resolvers_value context parent flag w :
  let nil_or_text (o : outcome (value * error)) :=
    match returned o with
    | Some (nil, None) => True
    | Some (VString s, None) => s <> ""
    | _ => False
    end in
  nil_or_text (kong.call_Resolve DefaultsResolver context parent (Some flag) w) /\
  nil_or_text (kong.call_Resolve EnvarResolver context parent (Some flag) w).
Proof.
  cbv zeta. rewrite DefaultsResolver_run, EnvarResolver_run. cbn [returned]. split.
  - by destruct (decide _).
  - destruct (environ w !! _) as [V|]; [|done].
    destruct (decide _) as [|Hn]; [done|]. tauto.
Qed.

(** X3: the JSON resolver cannot tell a hyphen from an underscore in a
    flag name: two flags whose names are the same once every hyphen is
    an underscore get the same result, and so do a flag and the flag
    named by its lookup key. *)
Theorem JSON_resolver_spellings context parent w values :
  (forall flag1 flag2,
     spec.hyphens_to_underscores (kong.Name flag1) =
     spec.hyphens_to_underscores (kong.Name flag2) ->
     kong.call_Resolve (JSON_resolver values) context parent (Some flag1) w =
     kong.call_Resolve (JSON_resolver values) context parent (Some flag2) w) /\
  (forall flag (tag : kong.Tag_struct TagFields) (others : FlagFields),
     kong.call_Resolve (JSON_resolver values) context parent (Some flag) w =
     kong.call_Resolve (JSON_resolver values) context parent
       (Some (kong.mkFlag (strings.Replace (kong.Name flag) "-" "_" (-1)) tag others)) w).
Proof.
  split.
  - intros flag1 flag2 Hkey. rewrite !JSON_func_run_any. by rewrite Hkey.
  - intros flag tag others. rewrite !JSON_func_run_any. cbn [kong.Name].
    by rewrite Replace_hyphens, hyphens_to_underscores_twice.
Qed.

(** X4: a flag name without a hyphen is looked up as it is: the result
    is the value the document holds under the name itself, or nil; and
    the lookup key is always as long as the name. *)
Theorem JSON_resolver_plain_name context parent w values m flag :
  "-"%char ∉ spec.bytes (kong.Name flag) ->
  heap w !! values = Some (table m) ->
  kong.call_Resolve (JSON_resolver values) context parent (Some flag) w =
    Returned (default nil (m !! kong.Name flag), None) w /\
  strings.Replace (kong.Name flag) "-" "_" (-1) = kong.Name flag /\
  forall name, String.length (strings.Replace name "-" "_" (-1)) = String.length name.
Proof.
  intros Hplain Hdoc. split; [|split].
  - rewrite (JSON_func_run _ _ _ _ _ _ Hdoc), hyphens_to_underscores_plain by done.
    cbn [index]. by destruct (m !! _).
  - by rewrite Replace_hyphens, hyphens_to_underscores_plain.
  - intros name. by rewrite Replace_hyphens, hyphens_to_underscores_length.
Qed.


(** X6: every resolver that [DefaultsResolver], [EnvarResolver] or a
    call of [JSON] returns accepts every application: its [Validate]
    returns a nil error in every world and leaves the world alone. *)
Theorem builtin_validate app w (r : json.Reader) w0 :
  kong.call_Validate DefaultsResolver app w = Returned None w /\
  kong.call_Validate EnvarResolver app w = Returned None w /\
  (forall methods err w1,
     JSON r w0 = Returned (Some methods, err) w1 ->
     kong.call_Validate (Some methods) app w = Returned None w).
Proof.
  split; [done|]. split; [done|]. intros methods err w1. rewrite JSON_run.
  destruct (snd (json.unmarshal r (table ∅))); [done|]. by intros [= <- _ _].
Qed.

Lemma unmarshal_null_stream (r rest : string) values :
  grammar.blank r ("null" +:+ rest) -> json.unmarshal r values = (nil_map, None).
Proof.
  intros Hr. pose proof (blank_byte_skipSpace _ _ _ Hr eq_refl) as Hbuf.
  unfold json.unmarshal. rewrite Hbuf.
  change (Ascii.eqb "n" "{") with false. cbv iota.
  rewrite fuel_for_S, (valueInterface_null _ _ _ _ Hbuf). reflexivity.
Qed.

Lemma unmarshal_empty_object (r s rest : string) m :
  grammar.blank r (String "{" s) -> grammar.blank s (String "}" rest) ->
  json.unmarshal r (table m) = (table m, None).
Proof.
  intros Hr Hs. unfold json.unmarshal.
  rewrite (blank_byte_skipSpace _ _ _ Hr eq_refl).
  change (Ascii.eqb "{" "{") with true. cbv iota.
  by rewrite (blank_byte_skipSpace _ _ _ Hs eq_refl).
Qed.

(** X7: a stream that begins, after white space, with the literal
    null, or with an object that has no member, gives a resolver that
    answers every flag with nil and a nil error: reading a key of the
    nil map that null leaves behind finds nothing and does not panic. *)
Theorem JSON_without_members (r : json.Reader) context parent flag w :
  (forall rest, grammar.blank r ("null" +:+ rest) ->
     examples.JSON_then_Resolve (Application := Application) r context parent (Some flag) w
     = Returned (nil, None) {| environ := environ w; heap := heap w ++ [nil_map] |}) /\
  (forall s rest, grammar.blank r (String "{" s) -> grammar.blank s (String "}" rest) ->
     examples.JSON_then_Resolve (Application := Application) r context parent (Some flag) w
     = Returned (nil, None) {| environ := environ w; heap := heap w ++ [table ∅] |}).
Proof.
  split.
  - intros rest Hr.
    by rewrite (JSON_then_Resolve_run r nil_map _ _ _ _
                  (unmarshal_null_stream r rest (table ∅) Hr)).
  - intros s rest Hr Hs.
    by rewrite (JSON_then_Resolve_run r (table ∅) _ _ _ _
                  (unmarshal_empty_object r s rest ∅ Hr Hs)).
Qed.

End Further.

(** * The further properties on concrete inputs *)

Lemma JSON_resolver_spellings_witness :
  kong.call_Resolve (Application := unit)
    (kong.as_Resolver (Some (kong.JSON_func 0))) tt tt
    (Some (examples.flag "max-retries" "" "")) examples.sample_world =
  kong.call_Resolve (Application := unit)
    (kong.as_Resolver (Some (kong.JSON_func 0))) tt tt
    (Some (examples.flag "max_retries" "" "")) examples.sample_world.
Proof.
  apply (proj1 (JSON_resolver_spellings (Application := unit) (FlagFields := unit)
                  (TagFields := unit) tt tt examples.sample_world 0%nat)
           (examples.flag "max-retries" "" "") (examples.flag "max_retries" "" "")).
  reflexivity.
Defined.

Lemma JSON_resolver_plain_name_witness :
  ("-"%char ∉ spec.bytes "max_retries") /\
  kong.call_Resolve (Application := unit)
    (kong.as_Resolver (Some (kong.JSON_func 0))) tt tt
    (Some (examples.flag "max_retries" "" "")) examples.sample_world
  = Returned (VFloat64 examples.three, None) examples.sample_world.
Proof.
  assert ("-"%char ∉ spec.bytes "max_retries") as Hplain.
  { cbn [spec.bytes]. rewrite !not_elem_of_cons.
    repeat split; try discriminate. apply not_elem_of_nil. }
  split; [exact Hplain|].
  apply (proj1 (JSON_resolver_plain_name (Application := unit) tt tt
                  examples.sample_world 0%nat examples.sample_document
                  (examples.flag "max_retries" "" "") Hplain eq_refl)).
Defined.


Lemma builtin_validate_witness :
  kong.call_Validate (Application := unit) (Context := unit) (Path := unit)
    (FlagFields := unit) (TagFields := unit)
    (kong.as_Resolver (Some (kong.JSON_func 0))) tt examples.sample_world
  = Returned None examples.sample_world.
Proof.
  apply (proj2 (proj2 (builtin_validate (Application := unit) (Context := unit)
                         (Path := unit) (FlagFields := unit) (TagFields := unit)
                         tt examples.sample_world
                         examples.max_retries_document examples.empty_world))
           _ None
           {| environ := ∅;
              heap := [table (<["max_retries" := VFloat64 examples.three]>
                                (<["name" := VString "x"]> ∅))] |}).
  vm_compute. reflexivity.
Defined.

Lemma JSON_without_members_witness :
  examples.JSON_then_Resolve (Application := unit) " null" tt tt
    (Some (examples.flag "max-retries" "" "")) examples.empty_world
  = Returned (nil, None) {| environ := ∅; heap := [nil_map] |} /\
  examples.JSON_then_Resolve (Application := unit) "{ } trailing" tt tt
    (Some (examples.flag "max-retries" "" "")) examples.empty_world
  = Returned (nil, None) {| environ := ∅; heap := [table ∅] |}.
Proof.
  split.
  - apply (proj1 (JSON_without_members (Application := unit) " null" tt tt
                    (examples.flag "max-retries" "" "") examples.empty_world) "").
    apply grammar.blank_more; [reflexivity|]. apply grammar.blank_none.
  - apply (proj2 (JSON_without_members (Application := unit) "{ } trailing" tt tt
                    (examples.flag "max-retries" "" "") examples.empty_world)
             " } trailing" " trailing").
    + apply grammar.blank_none.
    + apply grammar.blank_more; [reflexivity|]. apply grammar.blank_none.
Defined.
